(** * dsmr_parser: the telegram decoding pipeline of [dsmr_parser/parsers.py]

    A shallow embedding of [TelegramParser], [DSMRObjectParser] and its
    subclasses, and [ValueParser], together with the part of Python's [re]
    module that the three regular expressions of the file exercise. *)

From Stdlib Require Import Ascii String List ZArith Bool Arith Lia.
Import ListNotations.

Set Implicit Arguments.

(** Python [str] values are modelled as lists of 8-bit characters; DSMR
    telegrams are plain ASCII. *)
Definition str := list ascii.

Coercion list_ascii_of_string : string >-> list.

Definition str_eq_dec : forall a b : str, {a = b} + {a <> b} :=
  list_eq_dec ascii_dec.

Definition is_char (c : ascii) : ascii -> bool := Ascii.eqb c.

Definition in_range (lo hi c : ascii) : bool :=
  (nat_of_ascii lo <=? nat_of_ascii c) && (nat_of_ascii c <=? nat_of_ascii hi).

(** * A backtracking matcher for the fragment of [re] used by the parser *)

Module Re.

(** The matcher's position in the subject: the text already passed
    (most recent character first), the text still ahead, and the
    contents of the capture groups closed so far. *)
Record cursor : Type := Cursor {
  seen : str;
  todo : str;
  marks : list (nat * str)
}.

Inductive regex : Type :=
| Eps
| Chr (p : ascii -> bool)
| Cat (r1 r2 : regex)
| Alt (r1 r2 : regex)
| Rep (r : regex) (lo : nat) (hi : option nat)
| Lazy (r : regex) (lo : nat) (hi : option nat)
| Grp (n : nat) (r : regex)
| Behind (p : ascii -> bool)
| Ahead (p : ascii -> bool).

Definition ptr (z : cursor) : nat := length (todo z).

(** [text[start:end]] for two cursors on the same subject. *)
Definition slice (z z' : cursor) : str :=
  firstn (ptr z - ptr z') (todo z).

Definition step (p : ascii -> bool) (z : cursor) : list cursor :=
  match todo z with
  | c :: t => if p c then [Cursor (c :: seen z) t (marks z)] else []
  | [] => []
  end.

Definition look (p : ascii -> bool) (s : str) (z : cursor) : list cursor :=
  match s with
  | c :: _ => if p c then [z] else []
  | [] => []
  end.

Definition set_mark (n : nat) (z z' : cursor) : cursor :=
  Cursor (seen z') (todo z') ((n, slice z z') :: marks z').

Definition below (hi : option nat) (count : nat) : bool :=
  match hi with
  | None => true
  | Some h => count <? h
  end.

Definition same_ptr (last : option nat) (z : cursor) : bool :=
  match last with
  | None => false
  | Some l => l =? ptr z
  end.

(** The greedy repeat of sre ([MAX_UNTIL]): below the minimum the body
    must match again; from the minimum on another iteration is tried
    first, unless the preceding optional iteration was zero-width
    ([last] is where it began), and then the tail is tried here.
    Results are listed in the order in which backtracking visits them. *)
Fixpoint rep_loop (body : cursor -> list cursor) (lo : nat) (hi : option nat)
         (fuel count : nat) (last : option nat) (z : cursor) : list cursor :=
  match fuel with
  | O => []
  | S fuel' =>
      if count <? lo then
        flat_map (rep_loop body lo hi fuel' (S count) last) (body z)
      else
        (if below hi count && negb (same_ptr last z) then
           flat_map (rep_loop body lo hi fuel' (S count) (Some (ptr z)))
                    (body z)
         else [])
        ++ [z]
  end.

(** The lazy repeat ([MIN_UNTIL]): from the minimum on the tail is tried
    here first, and only then another iteration. *)
Fixpoint lazy_loop (body : cursor -> list cursor) (lo : nat) (hi : option nat)
         (fuel count : nat) (last : option nat) (z : cursor) : list cursor :=
  match fuel with
  | O => []
  | S fuel' =>
      if count <? lo then
        flat_map (lazy_loop body lo hi fuel' (S count) last) (body z)
      else
        z :: (if below hi count && negb (same_ptr last z) then
                flat_map (lazy_loop body lo hi fuel' (S count) (Some (ptr z)))
                         (body z)
              else [])
  end.

Definition rep_fuel (lo : nat) (z : cursor) : nat := S (S (lo + ptr z)).

(** All ways in which [r] matches at [z], best first. *)
Fixpoint run (r : regex) (z : cursor) : list cursor :=
  match r with
  | Eps => [z]
  | Chr p => step p z
  | Cat r1 r2 => flat_map (run r2) (run r1 z)
  | Alt r1 r2 => run r1 z ++ run r2 z
  | Rep r0 lo hi => rep_loop (run r0) lo hi (rep_fuel lo z) 0 None z
  | Lazy r0 lo hi => lazy_loop (run r0) lo hi (rep_fuel lo z) 0 None z
  | Grp n r0 => map (set_mark n z) (run r0 z)
  | Behind p => look p (seen z) z
  | Ahead p => look p (todo z) z
  end.

(** A match object: where the match starts and where it ends. *)
Definition match_obj : Type := (cursor * cursor)%type.

Definition group0 (m : match_obj) : str := slice (fst m) (snd m).

Fixpoint lookup_mark (n : nat) (ms : list (nat * str)) : option str :=
  match ms with
  | [] => None
  | (k, s) :: ms' => if k =? n then Some s else lookup_mark n ms'
  end.

Definition group (n : nat) (m : match_obj) : option str :=
  lookup_mark n (marks (snd m)).

Definition advanced (z z' : cursor) : bool := negb (ptr z' =? ptr z).

Definition attempts (r : regex) (must_advance : bool) (z : cursor)
  : list cursor :=
  if must_advance then filter (advanced z) (run r z) else run r z.

(** [sre_search]: the leftmost start at which the pattern matches, with
    the first match there.  [must_advance] refuses an empty match at the
    first start only. *)
Fixpoint scan (r : regex) (must_advance : bool) (sn td : str)
  : option match_obj :=
  let z := Cursor sn td [] in
  match attempts r must_advance z with
  | z' :: _ => Some (z, z')
  | [] =>
      match td with
      | [] => None
      | c :: td' => scan r false (c :: sn) td'
      end
  end.

Definition search (r : regex) (text : str) : option match_obj :=
  scan r false [] text.

(** [finditer]: after a match the search resumes where it ended, and
    after an empty match it may not return the same empty match. *)
Fixpoint iter_loop (r : regex) (fuel : nat) (must_advance : bool)
         (sn td : str) : list match_obj :=
  match fuel with
  | O => []
  | S fuel' =>
      match scan r must_advance sn td with
      | None => []
      | Some m =>
          m :: iter_loop r fuel' (negb (advanced (fst m) (snd m)))
                         (seen (snd m)) (todo (snd m))
      end
  end.

Definition finditer (r : regex) (text : str) : list match_obj :=
  iter_loop r (2 * length text + 2) false [] text.

(** [findall] for a pattern with exactly one group yields that group of
    every match, the empty string where the group took no part. *)
Definition findall1 (r : regex) (text : str) : list str :=
  map (fun m => match group 1 m with Some s => s | None => [] end)
      (finditer r text).

End Re.

Import Re.

Definition any_char : ascii -> bool := fun _ => true.

(** r'\/.+\!' under re.DOTALL *)
Definition checksum_contents_pattern : regex :=
  Cat (Chr (is_char "/")) (Cat (Rep (Chr any_char) 1 None) (Chr (is_char "!"))).

(** [0-9A-Z] *)
Definition digit_or_upper (c : ascii) : bool :=
  in_range "0" "9" c || in_range "A" "Z" c.

(** r'((?<=\!)[0-9A-Z]{4})+': the group, then its repetition *)
Definition checksum_hex_group : regex :=
  Grp 1 (Cat (Behind (is_char "!")) (Rep (Chr digit_or_upper) 4 (Some 4))).

Definition checksum_hex_pattern : regex := Rep checksum_hex_group 1 None.

(** [0-9a-zA-Z\.\*] *)
Definition value_char (c : ascii) : bool :=
  in_range "0" "9" c || in_range "a" "z" c || in_range "A" "Z" c
  || is_char "." c || is_char "*" c.

(** r'((?<=\()[0-9a-zA-Z\.\*]{0,}(?=\)))+': the group, then its
    repetition *)
Definition value_group_pattern : regex :=
  Grp 1 (Cat (Behind (is_char "("))
             (Cat (Rep (Chr value_char) 0 None) (Ahead (is_char ")")))).

Definition value_pattern : regex := Rep value_group_pattern 1 None.

(** * Exceptions and the effect of running a decoder *)

(** Modelled from the spec: [dsmr_parser/exceptions.py] is not among the
    sources; it declares [ParseError] and [InvalidChecksumError].  The
    others are the built-in exceptions that the decoder can let escape;
    messages are left out, but for the two checksums that
    [InvalidChecksumError] reports. *)
Inductive exn : Type :=
| ParseError
| InvalidChecksumError (calculated expected : Z)
| ValueError
| IndexError
| NotImplementedError
| re_error
| OtherError (name : string).

Inductive outcome (A : Type) : Type :=
| Return (a : A)
| Raise (e : exn).

Arguments Return {A} a.
Arguments Raise {A} e.

(** * Helpers of the Python runtime *)

(** [s.split(sep)] for a one-character separator. *)
Fixpoint split (sep : ascii) (s : str) : list str :=
  match s with
  | [] => [[]]
  | c :: s' =>
      if Ascii.eqb c sep then [] :: split sep s'
      else match split sep s' with
           | p :: ps => (c :: p) :: ps
           | [] => [[c]]
           end
  end.

(** [c in s] *)
Definition contains (c : ascii) (s : str) : bool := existsb (Ascii.eqb c) s.

Definition hex_digit (c : ascii) : option Z :=
  let n := Z.of_nat (nat_of_ascii c) in
  if in_range "0" "9" c then Some (n - 48)%Z
  else if in_range "a" "f" c then Some (n - 87)%Z
  else if in_range "A" "F" c then Some (n - 55)%Z
  else None.

Fixpoint hex_digits (acc : Z) (s : str) : option Z :=
  match s with
  | [] => Some acc
  | c :: s' =>
      match hex_digit c with
      | Some d => hex_digits (16 * acc + d)%Z s'
      | None => None
      end
  end.

(** [int(s, base=16)] on text without sign, blanks or underscores (the
    expression that feeds it yields characters of [0-9A-Z] only): an
    optional [0x]/[0X] prefix and at least one hexadecimal digit; [None]
    stands for [ValueError]. *)
Definition int_base16 (s : str) : option Z :=
  let digits :=
    match s with
    | "0"%char :: x :: rest =>
        if is_char "x" x || is_char "X" x then rest else s
    | _ => s
    end in
  match digits with
  | [] => None
  | _ => hex_digits 0 digits
  end.

(** * CRC16 of the PyCRC package: reflected polynomial 0xA001, start 0 *)

Fixpoint crc16_shift (n : nat) (crc : Z) : Z :=
  match n with
  | O => crc
  | S n' =>
      crc16_shift n'
        (if Z.testbit crc 0 then Z.lxor (Z.shiftr crc 1) 40961
         else Z.shiftr crc 1)
  end.

Definition crc16_tab (i : Z) : Z := crc16_shift 8 i.

Definition crc16_update (crc_value : Z) (c : ascii) : Z :=
  let d := Z.of_nat (nat_of_ascii c) in
  let tmp := Z.lxor crc_value d in
  let rotated := Z.shiftr crc_value 8 in
  Z.lxor rotated (crc16_tab (Z.land tmp 255)).

Definition CRC16_calculate (input_data : str) : Z :=
  fold_left crc16_update input_data 0%Z.

(** * Decoded objects *)

Section Decoder.

(** [W] is whatever the coercion functions may read and change, [V] the
    values they produce. *)
Variables W V : Type.

Definition M (A : Type) : Type := W -> outcome A * W.

Definition ret {A} (a : A) : M A := fun w => (Return a, w).

Definition raise {A} (e : exn) : M A := fun w => (Raise e, w).

Definition bind {A B} (m : M A) (k : A -> M B) : M B :=
  fun w => match m w with
           | (Return a, w') => k a w'
           | (Raise e, w') => (Raise e, w')
           end.

Definition lift {A} (o : outcome A) : M A := fun w => (o, w).

Notation "x <- m ;; k" := (bind m (fun x => k))
  (at level 61, m at next level, right associativity).

(** The dictionary [{'value': ..., 'unit': ...}]. *)
Record value_group : Type := ValueGroup {
  vg_value : option V;
  vg_unit : option str
}.

(** Modelled from the spec: [dsmr_parser/objects.py] is not among the
    sources; its three classes wrap the list of decoded value groups
    ([MBusObject] is the two-group shape, [MBusObjectV2_2] the other
    M-Bus shape, [CosemObject] the COSEM shape). *)
Inductive DSMRObject : Type :=
| MBusObject (values : list value_group)
| MBusObjectV2_2 (values : list value_group)
| CosemObject (values : list value_group).

(** ** ValueParser *)

Record ValueParser : Type := { coerce_type : str -> M V }.

Definition truthy (value : option str) : bool :=
  match value with
  | Some (_ :: _) => true
  | _ => false
  end.

Definition unpack2 (parts : list str) : M (option str * option str) :=
  match parts with
  | [a; b] => ret (Some a, Some b)
  | _ => raise ValueError
  end.

Definition ValueParser_parse (self : ValueParser) (value : option str)
  : M value_group :=
  let unit_of_measurement : option str := None in
  vu <- (match value with
         | Some v =>
             if truthy value && contains "*" v
             then unpack2 (split "*" v)
             else ret (value, unit_of_measurement)
         | None => ret (value, unit_of_measurement)
         end) ;;
  let '(value, unit_of_measurement) := vu in
  value <- (match value with
            | Some v => x <- coerce_type self v ;; ret (Some x)
            | None => ret None
            end) ;;
  ret (ValueGroup value unit_of_measurement).

(** ** DSMRObjectParser and its subclasses *)

Inductive DSMRObjectParser : Type :=
| MBusParser (value_formats : list ValueParser)
| CosemParser (value_formats : list ValueParser)
| ProfileGenericParser (value_formats : list ValueParser).

Definition value_formats (self : DSMRObjectParser) : list ValueParser :=
  match self with
  | MBusParser f | CosemParser f | ProfileGenericParser f => f
  end.

Definition none_if_empty (v : str) : option str :=
  match v with
  | [] => None
  | _ => Some v
  end.

(** The value groups of a line: [re.findall(pattern, line)] with empty
    groups turned into [None]. *)
Definition line_values (line : str) : list (option str) :=
  map none_if_empty (findall1 value_pattern line).

(** [[formats[i].parse(value) for i, value in enumerate(values)]] *)
Fixpoint parse_each (formats : list ValueParser) (i : nat)
         (values : list (option str)) : M (list value_group) :=
  match values with
  | [] => ret []
  | value :: rest =>
      match nth_error formats i with
      | Some f =>
          g <- ValueParser_parse f value ;;
          gs <- parse_each formats (S i) rest ;;
          ret (g :: gs)
      | None => raise IndexError
      end
  end.

Definition _parse (formats : list ValueParser) (line : str)
  : M (list value_group) :=
  let values := line_values line in
  if match values with [] => true | _ => false end
     || negb (length values =? length formats)
  then raise ParseError
  else parse_each formats 0 values.

Definition MBusParser_parse (formats : list ValueParser) (line : str)
  : M DSMRObject :=
  values <- _parse formats line ;;
  if length values =? 2 then ret (MBusObject values)
  else ret (MBusObjectV2_2 values).

Definition CosemParser_parse (formats : list ValueParser) (line : str)
  : M DSMRObject :=
  values <- _parse formats line ;;
  ret (CosemObject values).

Definition ProfileGenericParser_parse (formats : list ValueParser)
           (line : str) : M DSMRObject :=
  raise NotImplementedError.

(** Dynamic dispatch of [parser.parse(line)]. *)
Definition parser_parse (self : DSMRObjectParser) (line : str)
  : M DSMRObject :=
  match self with
  | MBusParser f => MBusParser_parse f line
  | CosemParser f => CosemParser_parse f line
  | ProfileGenericParser f => ProfileGenericParser_parse f line
  end.

(** ** TelegramParser *)

(** [CRC16().calculate] is a parameter of the development; the concrete
    [CRC16_calculate] above instantiates it. *)
Variable crc16 : str -> Z.

Definition validate_checksum (telegram : str) : outcome unit :=
  let checksum_contents := search checksum_contents_pattern telegram in
  let checksum_hex := search checksum_hex_pattern telegram in
  match checksum_contents, checksum_hex with
  | Some contents, Some hex =>
      let calculated_crc := crc16 (group0 contents) in
      match int_base16 (group0 hex) with
      | None => Raise ValueError
      | Some expected_crc =>
          if negb (calculated_crc =? expected_crc)%Z
          then Raise (InvalidChecksumError calculated_crc expected_crc)
          else Return tt
      end
  | _, _ => Raise ParseError
  end.

(** A Python [dict] keyed by strings, in insertion order. *)
Definition dict (A : Type) : Type := list (str * A).

Fixpoint dict_set {A} (k : str) (v : A) (d : dict A) : dict A :=
  match d with
  | [] => [(k, v)]
  | (k', v') :: d' =>
      if str_eq_dec k' k then (k', v) :: d'
      else (k', v') :: dict_set k v d'
  end.

Definition keys {A} (d : dict A) : list str := map fst d.

(** [re.compile(signature, re.DOTALL)]: the pattern language itself is
    not modelled; [None] stands for a pattern that [re] rejects. *)
Variable re_compile : str -> option regex.

Record TelegramParser : Type := {
  telegram_specification : dict DSMRObjectParser;
  enable_checksum_validation : bool
}.

Fixpoint parse_items (items : dict DSMRObjectParser) (telegram_data : str)
         (telegram : dict DSMRObject) : M (dict DSMRObject) :=
  match items with
  | [] => ret telegram
  | (signature, parser) :: rest =>
      match re_compile signature with
      | None => raise re_error
      | Some r =>
          match search r telegram_data with
          | Some m =>
              obj <- parser_parse parser (group0 m) ;;
              parse_items rest telegram_data (dict_set signature obj telegram)
          | None => parse_items rest telegram_data telegram
          end
      end
  end.

Definition parse (self : TelegramParser) (telegram_data : str)
  : M (dict DSMRObject) :=
  _ <- (if enable_checksum_validation self
        then lift (validate_checksum telegram_data)
        else ret tt) ;;
  parse_items (telegram_specification self) telegram_data [].

End Decoder.

Arguments ret {W A} a _.
Arguments raise {W A} e _.
Arguments lift {W A} o _.

Notation "x <- m ;; k" := (bind m (fun x => k))
  (at level 61, m at next level, right associativity).

Open Scope string_scope.
Open Scope list_scope.
Open Scope nat_scope.

(** * Statements of the specification, in its own words *)

(** Each value decoded by the decoder at the same place, in order. *)
Fixpoint decode_each {W V} (formats : list (ValueParser W V))
         (values : list (option str)) : M W (list (value_group V)) :=
  match formats, values with
  | f :: formats', value :: values' =>
      g <- ValueParser_parse f value ;;
      gs <- decode_each formats' values' ;;
      ret (g :: gs)
  | _, _ => ret []
  end.

(** The text before and after the first occurrence of [sep]. *)
Fixpoint partition_first (sep : ascii) (s : str) : str * str :=
  match s with
  | [] => ([], [])
  | c :: s' =>
      if Ascii.eqb c sep then ([], s')
      else let '(a, b) := partition_first sep s' in (c :: a, b)
  end.

(** The text from the first occurrence of [c] on. *)
Fixpoint from_first (c : ascii) (s : str) : option str :=
  match s with
  | [] => None
  | x :: s' => if Ascii.eqb x c then Some s else from_first c s'
  end.

(** The text through the first occurrence of [c]. *)
Fixpoint through_first (c : ascii) (s : str) : option str :=
  match s with
  | [] => None
  | x :: s' =>
      if Ascii.eqb x c then Some [x]
      else option_map (cons x) (through_first c s')
  end.

(** "The substring from the first [/] through the first subsequent [!],
    inclusive." *)
Definition span_first_to_first (telegram : str) : option str :=
  match from_first "/" telegram with
  | Some (slash :: rest) => option_map (cons slash) (through_first "!" rest)
  | _ => None
  end.

(** [list[i] = x], leaving a list that is too short alone. *)
Fixpoint replace_nth {A} (i : nat) (x : A) (l : list A) : list A :=
  match l, i with
  | [], _ => []
  | _ :: l', O => x :: l'
  | y :: l', S i' => y :: replace_nth i' x l'
  end.

(** [z'] is [z] moved forward over some text [m]. *)
Definition extends (z z' : cursor) : Prop :=
  exists m, todo z = m ++ todo z' /\ seen z' = rev m ++ seen z.

(** [r] matches the substring [m] of [pre ++ m ++ post]. *)
Definition matches_at (r : regex) (pre m post : str) : Prop :=
  exists mk,
    In (Cursor (rev m ++ rev pre) post mk)
       (run r (Cursor (rev pre) (m ++ post) [])).

Definition matches_substring (r : regex) (text : str) : Prop :=
  exists pre m post, text = pre ++ m ++ post /\ matches_at r pre m post.

(** The cursors reached from [(sn, s)] by passing one or more characters,
    the farthest first: what a greedy [.+] offers to the rest of a
    pattern. *)
Fixpoint longest_first (sn s : str) (mk : list (nat * str)) : list cursor :=
  match s with
  | [] => []
  | c :: s' => longest_first (c :: sn) s' mk ++ [Cursor (c :: sn) s' mk]
  end.

(** The cursors reached from [(sn, s)] by passing characters of [p], the
    farthest first and the start last: what a greedy [[p]*] offers. *)
Fixpoint backoff (p : ascii -> bool) (sn s : str) (mk : list (nat * str))
  : list cursor :=
  match s with
  | c :: s' =>
      (if p c then backoff p (c :: sn) s' mk else []) ++ [Cursor sn s mk]
  | [] => [Cursor sn s mk]
  end.

(** The longest prefix of [s] made of characters of [p], and the rest. *)
Fixpoint span (p : ascii -> bool) (s : str) : str * str :=
  match s with
  | c :: s' =>
      if p c then let '(a, b) := span p s' in (c :: a, b) else ([], s)
  | [] => ([], [])
  end.

(** The value group that starts between [sn] and [td]: an opening
    parenthesis just before, then value characters up to a closing one. *)
Definition token_at (sn td : str) : option str :=
  match sn with
  | c :: _ =>
      if is_char "(" c then
        match span value_char td with
        | (tok, d :: _) => if is_char ")" d then Some tok else None
        | (_, []) => None
        end
      else None
  | [] => None
  end.

(** The value groups of a line, read off position by position. *)
Fixpoint tokens_from (sn td : str) : list str :=
  match token_at sn td with Some tok => [tok] | None => [] end
  ++ match td with
     | [] => []
     | c :: td' => tokens_from (c :: sn) td'
     end.

Definition tokens (line : str) : list str := tokens_from [] line.

(** The item that [findall] keeps of a match: its group 1. *)
Definition item1 (m : match_obj) : str :=
  match group 1 m with Some s => s | None => [] end.

(** The value groups found after an empty one at the same place. *)
Definition tokens_after (must_advance : bool) (sn td : str) : list str :=
  if must_advance then
    match td with
    | [] => []
    | c :: td' => tokens_from (c :: sn) td'
    end
  else tokens_from sn td.

(** * Sample data *)

Definition crlf : str := ["013"%char; "010"%char].

(** The coercion [str], which returns its argument. *)
Definition str_parser : ValueParser unit str :=
  Build_ValueParser (fun s => ret s).

(** A coercion that counts how often it is called. *)
Definition counting_parser : ValueParser nat str :=
  Build_ValueParser (fun s n => (Return s, S n)).

(** The expression that matches the text [s] itself. *)
Fixpoint literal (s : str) : regex :=
  match s with
  | [] => Eps
  | c :: s' => Cat (Chr (is_char c)) (literal s')
  end.

(** [code.+?\r\n]: an OBIS code and the rest of its line. *)
Definition obis_line (code : regex) : regex :=
  Cat code (Cat (Lazy (Chr any_char) 1 None) (literal crlf)).

Definition EQUIPMENT_IDENTIFIER : str := "0-0:96\.1\.1.+?\r\n".
Definition ELECTRICITY_USED_TARIFF_1 : str := "1-0:1\.8\.1.+?\r\n".
Definition ELECTRICITY_DELIVERED_TARIFF_1 : str := "1-0:2\.8\.1.+?\r\n".
Definition GAS_METER_READING : str := "0-\d:24\.2\.1.+?\r\n".

(** [re.compile] on the four signatures above. *)
Definition sample_compile (signature : str) : option regex :=
  if str_eq_dec signature EQUIPMENT_IDENTIFIER
  then Some (obis_line (literal "0-0:96.1.1"))
  else if str_eq_dec signature ELECTRICITY_USED_TARIFF_1
  then Some (obis_line (literal "1-0:1.8.1"))
  else if str_eq_dec signature ELECTRICITY_DELIVERED_TARIFF_1
  then Some (obis_line (literal "1-0:2.8.1"))
  else if str_eq_dec signature GAS_METER_READING
  then Some (obis_line (Cat (literal "0-")
                            (Cat (Chr (in_range "0" "9")) (literal ":24.2.1"))))
  else None.

Definition sample_specification : dict (DSMRObjectParser unit str) :=
  [(EQUIPMENT_IDENTIFIER, CosemParser [str_parser]);
   (ELECTRICITY_USED_TARIFF_1, CosemParser [str_parser]);
   (ELECTRICITY_DELIVERED_TARIFF_1, CosemParser [str_parser]);
   (GAS_METER_READING, MBusParser [str_parser; str_parser])].

Definition sample_body : str :=
  "/KFM5KAIFA-METER" ++ crlf ++ crlf
  ++ "0-0:96.1.1(4530303236303030303037)" ++ crlf
  ++ "1-0:1.8.1(001234.567*kWh)" ++ crlf
  ++ "0-1:24.2.1(101209110000W)(12785.123*m3)" ++ crlf
  ++ "!".

Definition sample_telegram : str := sample_body ++ "A7B8" ++ crlf.

(** The same telegram with one digit of the checksum damaged. *)
Definition damaged_telegram : str := sample_body ++ "A7G8" ++ crlf.

Definition sample_parser : TelegramParser unit str :=
  Build_TelegramParser sample_specification true.

(** What [sample_parser] returns on [sample_telegram]. *)
Definition sample_result : dict (DSMRObject str) :=
  [(EQUIPMENT_IDENTIFIER,
    CosemObject [ValueGroup (Some ("4530303236303030303037" : str)) None]);
   (ELECTRICITY_USED_TARIFF_1,
    CosemObject [ValueGroup (Some ("001234.567" : str)) (Some ("kWh" : str))]);
   (GAS_METER_READING,
    MBusObject [ValueGroup (Some ("101209110000W" : str)) None;
                ValueGroup (Some ("12785.123" : str)) (Some ("m3" : str))])].

Definition gas_line : str := "0-1:24.2.1(101209110000W)(12785.123*m3)".

Definition four_groups_line : str := "0-1:24.3.0(121030140000)(00)(60)(m3)".

Definition four_groups : list (value_group str) :=
  [ValueGroup (Some ("121030140000" : str)) None;
   ValueGroup (Some ("00" : str)) None;
   ValueGroup (Some ("60" : str)) None;
   ValueGroup (Some ("m3" : str)) None].

Definition four_parsers : list (ValueParser unit str) :=
  [str_parser; str_parser; str_parser; str_parser].

(** * Further statements about the text of lines and telegrams *)

(** The value groups [ts] written one after another, each in parentheses. *)
Definition groups (ts : list str) : str :=
  flat_map (fun t => "("%char :: t ++ [")"%char]) ts.

(** The character just before the position is not an opening parenthesis. *)
Definition not_open (sn : str) : Prop :=
  match sn with
  | c :: _ => is_char "(" c = false
  | [] => True
  end.

(** The text holds [(tok)] somewhere, [tok] made of value characters. *)
Definition encloses (line tok : str) : Prop :=
  exists pre post : str,
    line = pre ++ "("%char :: tok ++ ")"%char :: post /\
    forallb value_char tok = true.

(** The text starts with [!] and four characters of [[0-9A-Z]]. *)
Definition hex_at (s : str) : bool :=
  match s with
  | b :: c1 :: c2 :: c3 :: c4 :: _ =>
      is_char "!" b && forallb digit_or_upper [c1; c2; c3; c4]
  | _ => false
  end.

(** The text holds a [/], at least one character, and then a [!]. *)
Definition has_span (telegram : str) : Prop :=
  exists pre body post : str,
    telegram = pre ++ "/"%char :: body ++ "!"%char :: post /\ body <> [].

(** The text holds a [!] followed by four characters of [[0-9A-Z]]. *)
Definition has_checksum (telegram : str) : Prop :=
  exists pre tail : str, telegram = pre ++ tail /\ hex_at tail = true.

(** One uppercase hexadecimal digit, and a 16-bit value as four of them,
    the way a meter prints its checksum. *)
Definition hex_char (d : Z) : ascii :=
  ascii_of_nat (Z.to_nat (if (d <? 10)%Z then 48 + d else 55 + d)%Z).

Definition hex4 (n : Z) : str :=
  [hex_char ((n / 4096) mod 16); hex_char ((n / 256) mod 16);
   hex_char ((n / 16) mod 16); hex_char (n mod 16)]%Z.

(** Whether a signature compiles and matches somewhere in the text. *)
Definition matchesb (re_compile : str -> option regex) (data signature : str)
  : bool :=
  match re_compile signature with
  | Some r => match search r data with Some _ => true | None => false end
  | None => false
  end.

(** Modelled from the spec: the attribute [values] that the classes of
    [dsmr_parser/objects.py] keep of their argument. *)
Definition object_values {V} (obj : DSMRObject V) : list (value_group V) :=
  match obj with
  | MBusObject values | MBusObjectV2_2 values | CosemObject values => values
  end.

(** A short telegram body between its [/] and its [!]. *)
Definition framed_body : str :=
  "KFM5KAIFA-METER" ++ crlf ++ "1-0:1.8.1(001234.567*kWh)" ++ crlf.

(** A line whose second group holds two [*]. *)
Definition two_stars_line : str := "0-0:96.1.1(12)(1*2*3)(4)".

(** A specification whose second entry decodes the gas reading, which
    has two groups, with a decoder of one value format. *)
Definition failing_specification : dict (DSMRObjectParser unit str) :=
  [(EQUIPMENT_IDENTIFIER, CosemParser [str_parser]);
   (GAS_METER_READING, CosemParser [str_parser]);
   (ELECTRICITY_USED_TARIFF_1, CosemParser [str_parser])].

Unset Implicit Arguments.

(** * Properties of the value decoder *)

Section ValueDecoder.

Variables W V : Type.
Implicit Types (self : ValueParser W V) (w : W).

Lemma contains_In (c : ascii) (s : str) :
  contains c s = true <-> In c s.
Proof.
  unfold contains. rewrite existsb_exists. split.
  - intros (x & Hx & E). apply Ascii.eqb_eq in E. now subst.
  - intros H. exists c. split; [assumption | apply Ascii.eqb_refl].
Qed.

Lemma contains_false (c : ascii) (s : str) :
  ~ In c s -> contains c s = false.
Proof.
  intros H. destruct (contains c s) eqn:E; [|reflexivity].
  apply contains_In in E. contradiction.
Qed.

Lemma split_no_sep (sep : ascii) (s : str) :
  ~ In sep s -> split sep s = [s].
Proof.
  induction s as [|c s IH]; intros H; simpl; [reflexivity|].
  destruct (Ascii.eqb c sep) eqn:E.
  - apply Ascii.eqb_eq in E. subst. exfalso. apply H. now left.
  - rewrite IH; [reflexivity|]. intros H'. apply H. now right.
Qed.

Lemma split_one_sep (sep : ascii) (a b : str) :
  ~ In sep a -> ~ In sep b -> split sep (a ++ sep :: b) = [a; b].
Proof.
  intros Ha Hb. induction a as [|c a IH]; simpl.
  - rewrite Ascii.eqb_refl, (split_no_sep _ _ Hb). reflexivity.
  - destruct (Ascii.eqb c sep) eqn:E.
    + apply Ascii.eqb_eq in E. subst. exfalso. apply Ha. now left.
    + rewrite IH; [reflexivity|]. intros H'. apply Ha. now right.
Qed.

Lemma parse_absent self w :
  ValueParser_parse self None w = (Return (ValueGroup None None), w).
Proof. reflexivity. Qed.

Lemma parse_plain self (token : str) w :
  ~ In "*"%char token ->
  ValueParser_parse self (Some token) w =
  (x <- coerce_type self token ;; ret (ValueGroup (Some x) None)) w.
Proof.
  intros H. unfold ValueParser_parse.
  rewrite (contains_false _ _ H), andb_false_r.
  unfold bind, ret. simpl. destruct (coerce_type self token w) as [[x|e] w']; reflexivity.
Qed.

Lemma parse_with_unit self (a b : str) w :
  ~ In "*"%char a -> ~ In "*"%char b ->
  ValueParser_parse self (Some (a ++ "*"%char :: b)) w =
  (x <- coerce_type self a ;; ret (ValueGroup (Some x) (Some b))) w.
Proof.
  intros Ha Hb. unfold ValueParser_parse.
  assert (Hc : contains "*" (a ++ "*"%char :: b) = true).
  { apply contains_In, in_or_app. right. now left. }
  assert (Ht : truthy (Some (a ++ "*"%char :: b)) = true).
  { destruct a; reflexivity. }
  rewrite Hc, Ht, (split_one_sep _ _ _ Ha Hb). simpl.
  unfold bind, ret. simpl. destruct (coerce_type self a w) as [[x|e] w']; reflexivity.
Qed.

End ValueDecoder.

(** * Properties of the matcher *)

Section Matcher.

Lemma extends_refl z : extends z z.
Proof. exists []. split; reflexivity. Qed.

Lemma extends_trans z1 z2 z3 :
  extends z1 z2 -> extends z2 z3 -> extends z1 z3.
Proof.
  intros (m1 & T1 & S1) (m2 & T2 & S2). exists (m1 ++ m2). split.
  - rewrite T1, T2. apply app_assoc.
  - rewrite S2, S1, rev_app_distr, app_assoc. reflexivity.
Qed.

Lemma extends_ptr z z' : extends z z' -> ptr z' <= ptr z.
Proof.
  intros (m & T & _). unfold ptr. rewrite T, length_app. lia.
Qed.

Lemma extends_slice z z' m :
  todo z = m ++ todo z' -> slice z z' = m.
Proof.
  intros T. unfold slice, ptr. rewrite T, length_app.
  replace (length m + length (todo z') - length (todo z')) with (length m) by lia.
  rewrite firstn_app, Nat.sub_diag, firstn_all. simpl. apply app_nil_r.
Qed.

Lemma step_extends p z z' : In z' (step p z) -> extends z z'.
Proof.
  unfold step. destruct (todo z) as [|c t] eqn:T; [intros []|].
  destruct (p c); [|intros []]. intros [<-|[]].
  exists [c]. simpl. split; [assumption | reflexivity].
Qed.

Lemma look_extends p s z z' : In z' (look p s z) -> extends z z'.
Proof.
  unfold look. destruct s as [|c t]; [intros []|].
  destruct (p c); [|intros []]. intros [<-|[]]. apply extends_refl.
Qed.

Lemma rep_loop_extends body lo hi :
  (forall z z', In z' (body z) -> extends z z') ->
  forall fuel count last z z',
    In z' (rep_loop body lo hi fuel count last z) -> extends z z'.
Proof.
  intros Hb. induction fuel as [|fuel IH]; intros count last z z'; simpl.
  - intros [].
  - destruct (count <? lo).
    + rewrite in_flat_map. intros (y & Hy & Hz).
      eapply extends_trans; [apply Hb, Hy | eapply IH, Hz].
    + rewrite in_app_iff. intros [H|[<-|[]]]; [|apply extends_refl].
      destruct (below hi count && negb (same_ptr last z)); [|destruct H].
      apply in_flat_map in H. destruct H as (y & Hy & Hz).
      eapply extends_trans; [apply Hb, Hy | eapply IH, Hz].
Qed.

Lemma lazy_loop_extends body lo hi :
  (forall z z', In z' (body z) -> extends z z') ->
  forall fuel count last z z',
    In z' (lazy_loop body lo hi fuel count last z) -> extends z z'.
Proof.
  intros Hb. induction fuel as [|fuel IH]; intros count last z z'; simpl.
  - intros [].
  - destruct (count <? lo).
    + rewrite in_flat_map. intros (y & Hy & Hz).
      eapply extends_trans; [apply Hb, Hy | eapply IH, Hz].
    + intros [<-|H]; [apply extends_refl|].
      destruct (below hi count && negb (same_ptr last z)); [|destruct H].
      apply in_flat_map in H. destruct H as (y & Hy & Hz).
      eapply extends_trans; [apply Hb, Hy | eapply IH, Hz].
Qed.

Lemma run_extends r : forall z z', In z' (run r z) -> extends z z'.
Proof.
  induction r as [|p|r1 IH1 r2 IH2|r1 IH1 r2 IH2|r IH lo hi|r IH lo hi
                  |n r IH|p|p];
    intros z z'; cbn [run].
  - intros [<-|[]]. apply extends_refl.
  - apply step_extends.
  - rewrite in_flat_map. intros (y & Hy & Hz).
    eapply extends_trans; [apply IH1, Hy | apply IH2, Hz].
  - rewrite in_app_iff. intros [H|H]; [apply IH1, H | apply IH2, H].
  - apply rep_loop_extends, IH.
  - apply lazy_loop_extends, IH.
  - rewrite in_map_iff. intros (y & <- & Hy).
    destruct (IH _ _ Hy) as (m & T & S). exists m. split; assumption.
  - apply look_extends.
  - apply look_extends.
Qed.

(** ** The fuel of a repeat is enough *)

Lemma flat_map_ext_In {A B} (f g : A -> list B) (l : list A) :
  (forall a, In a l -> f a = g a) -> flat_map f l = flat_map g l.
Proof.
  induction l as [|a l IH]; intros H; simpl; [reflexivity|].
  rewrite (H a (or_introl eq_refl)), IH; [reflexivity|].
  intros b Hb. apply H. now right.
Qed.

Lemma rep_loop_last body lo hi fuel count l z :
  lo <= count -> l = ptr z ->
  rep_loop body lo hi (S fuel) count (Some l) z = [z].
Proof.
  intros H ->. simpl. apply Nat.ltb_ge in H. rewrite H.
  unfold same_ptr. rewrite Nat.eqb_refl, andb_false_r. reflexivity.
Qed.

Lemma rep_loop_fuel body lo hi :
  (forall z z', In z' (body z) -> ptr z' <= ptr z) ->
  forall f1 f2 count last z,
    (lo - count) + ptr z + 2 <= f1 ->
    (lo - count) + ptr z + 2 <= f2 ->
    rep_loop body lo hi f1 count last z = rep_loop body lo hi f2 count last z.
Proof.
  intros Hb. induction f1 as [|f1 IH]; intros f2 count last z H1 H2;
    [lia|]. destruct f2 as [|f2]; [lia|]. simpl.
  destruct (count <? lo) eqn:E.
  - apply Nat.ltb_lt in E. apply flat_map_ext_In. intros y Hy.
    specialize (Hb _ _ Hy). apply IH; lia.
  - apply Nat.ltb_ge in E. f_equal.
    destruct (below hi count && negb (same_ptr last z)); [|reflexivity].
    apply flat_map_ext_In. intros y Hy. specialize (Hb _ _ Hy).
    destruct (Nat.eq_dec (ptr y) (ptr z)) as [P|P].
    + destruct f1 as [|f1]; [lia|]. destruct f2 as [|f2]; [lia|].
      rewrite !rep_loop_last by (lia || (symmetry; assumption)). reflexivity.
    + apply IH; lia.
Qed.

Lemma lazy_loop_last body lo hi fuel count l z :
  lo <= count -> l = ptr z ->
  lazy_loop body lo hi (S fuel) count (Some l) z = [z].
Proof.
  intros H ->. simpl. apply Nat.ltb_ge in H. rewrite H.
  unfold same_ptr. rewrite Nat.eqb_refl, andb_false_r. reflexivity.
Qed.

Lemma lazy_loop_fuel body lo hi :
  (forall z z', In z' (body z) -> ptr z' <= ptr z) ->
  forall f1 f2 count last z,
    (lo - count) + ptr z + 2 <= f1 ->
    (lo - count) + ptr z + 2 <= f2 ->
    lazy_loop body lo hi f1 count last z =
    lazy_loop body lo hi f2 count last z.
Proof.
  intros Hb. induction f1 as [|f1 IH]; intros f2 count last z H1 H2;
    [lia|]. destruct f2 as [|f2]; [lia|]. simpl.
  destruct (count <? lo) eqn:E.
  - apply Nat.ltb_lt in E. apply flat_map_ext_In. intros y Hy.
    specialize (Hb _ _ Hy). apply IH; lia.
  - apply Nat.ltb_ge in E. f_equal.
    destruct (below hi count && negb (same_ptr last z)); [|reflexivity].
    apply flat_map_ext_In. intros y Hy. specialize (Hb _ _ Hy).
    destruct (Nat.eq_dec (ptr y) (ptr z)) as [P|P].
    + destruct f1 as [|f1]; [lia|]. destruct f2 as [|f2]; [lia|].
      rewrite !lazy_loop_last by (lia || (symmetry; assumption)).
      reflexivity.
    + apply IH; lia.
Qed.

(** Whatever fuel is added to that of [run], a repeat matches the same. *)
Lemma run_Rep_fuel r lo hi z extra :
  run (Rep r lo hi) z =
  rep_loop (run r) lo hi (rep_fuel lo z + extra) 0 None z.
Proof.
  cbn [run]. apply rep_loop_fuel.
  - intros y y' H. apply extends_ptr, (run_extends r), H.
  - unfold rep_fuel. lia.
  - unfold rep_fuel. lia.
Qed.

Lemma run_Lazy_fuel r lo hi z extra :
  run (Lazy r lo hi) z =
  lazy_loop (run r) lo hi (rep_fuel lo z + extra) 0 None z.
Proof.
  cbn [run]. apply lazy_loop_fuel.
  - intros y y' H. apply extends_ptr, (run_extends r), H.
  - unfold rep_fuel. lia.
  - unfold rep_fuel. lia.
Qed.

(** ** Searching *)

Lemma scan_unfold r adv sn td :
  scan r adv sn td =
  match attempts r adv (Cursor sn td []) with
  | z' :: _ => Some (Cursor sn td [], z')
  | [] => match td with
          | [] => None
          | c :: td' => scan r false (c :: sn) td'
          end
  end.
Proof. destruct td; reflexivity. Qed.

Lemma attempts_In r adv z z' : In z' (attempts r adv z) -> In z' (run r z).
Proof.
  unfold attempts. destruct adv; [|trivial].
  intros H. apply filter_In in H. apply H.
Qed.

Lemma scan_sound r :
  forall td adv sn m,
    scan r adv sn td = Some m ->
    exists pre,
      td = pre ++ todo (fst m) /\ seen (fst m) = rev pre ++ sn /\
      marks (fst m) = [] /\ In (snd m) (run r (fst m)).
Proof.
  induction td as [|c td IH]; intros adv sn m; rewrite scan_unfold;
    destruct (attempts r adv (Cursor sn _ [])) as [|z' l] eqn:E.
  - discriminate.
  - intros [= <-]. exists []. simpl. repeat split.
    apply (attempts_In r adv). rewrite E. now left.
  - intros H. destruct (IH _ _ _ H) as (pre & T & S & Mk & R).
    exists (c :: pre). simpl. rewrite T, S, <- app_assoc. auto.
  - intros [= <-]. exists []. simpl. repeat split.
    apply (attempts_In r adv). rewrite E. now left.
Qed.

Lemma scan_complete r :
  forall pre sn rest,
    run r (Cursor (rev pre ++ sn) rest []) <> [] ->
    scan r false sn (pre ++ rest) <> None.
Proof.
  induction pre as [|c pre IH]; intros sn rest H; rewrite scan_unfold;
    unfold attempts.
  - simpl in *. destruct (run r (Cursor sn rest [])); [contradiction|discriminate].
  - destruct (run r (Cursor sn _ [])); [|discriminate].
    simpl. apply IH. simpl in H. rewrite <- app_assoc in H. exact H.
Qed.

Lemma search_matches r text :
  search r text <> None <-> matches_substring r text.
Proof.
  unfold search. split.
  - destruct (scan r false [] text) as [[z z']|] eqn:E; [intros _|contradiction].
    destruct (scan_sound r _ _ _ _ E) as (pre & T & S & Mk & R). simpl in *.
    destruct (run_extends r _ _ R) as (m & T' & S').
    exists pre, m, (todo z'). split; [rewrite T, T'; reflexivity|].
    exists (marks z'). rewrite app_nil_r in S.
    destruct z as [sn td mk], z' as [sn' td' mk']. simpl in *. subst. exact R.
  - intros (pre & m & post & -> & mk & H).
    apply (scan_complete r pre [] (m ++ post)).
    rewrite app_nil_r. intros E. rewrite E in H. destruct H.
Qed.

(** ** The fuel of [finditer] is enough *)

Lemma scan_bounds r adv sn td m :
  scan r adv sn td = Some m ->
  ptr (snd m) <= ptr (fst m) /\ ptr (fst m) <= length td /\
  (adv = true -> ptr (fst m) = length td -> ptr (snd m) <> ptr (fst m)).
Proof.
  intros H. destruct (scan_sound r _ _ _ _ H) as (pre & T & _ & _ & R).
  split; [apply extends_ptr, (run_extends r), R|].
  split; [unfold ptr; rewrite T, length_app; lia|].
  intros -> L. unfold ptr in L. rewrite T, length_app in L.
  destruct pre as [|c pre]; [|simpl in L; lia]. simpl in T.
  rewrite scan_unfold in H. unfold attempts in H.
  destruct (filter _ _) as [|z' l] eqn:F.
  - destruct td as [|c td]; [discriminate|].
    destruct (scan_sound r _ _ _ _ H) as (pre & T' & _).
    rewrite T' in T. apply (f_equal (@length ascii)) in T.
    simpl in T. rewrite length_app in T. lia.
  - injection H as <-. cbn [fst snd].
    assert (I : In z' (filter (advanced (Cursor sn td [])) (run r (Cursor sn td []))))
      by (rewrite F; now left).
    apply filter_In in I. destruct I as [_ A]. unfold advanced in A.
    apply negb_true_iff, Nat.eqb_neq in A. exact A.
Qed.

Lemma iter_loop_fuel r :
  forall f1 f2 (adv : bool) (sn td : str),
    2 * length td + 2 <= f1 + (if adv then 1 else 0) ->
    2 * length td + 2 <= f2 + (if adv then 1 else 0) ->
    iter_loop r f1 adv sn td = iter_loop r f2 adv sn td.
Proof.
  induction f1 as [|f1 IH]; intros f2 adv sn td H1 H2;
    [destruct adv; lia|].
  destruct f2 as [|f2]; [destruct adv; lia|]. cbn [iter_loop].
  destruct (scan r adv sn td) as [m|] eqn:S; [|reflexivity]. f_equal.
  destruct (scan_bounds r _ _ _ _ S) as (B1 & B2 & B3).
  unfold advanced. rewrite negb_involutive.
  change (length (todo (snd m))) with (ptr (snd m)) in *.
  destruct (ptr (snd m) =? ptr (fst m)) eqn:E.
  - apply Nat.eqb_eq in E.
    assert (adv = true -> ptr (fst m) < length td).
    { intros A. specialize (B3 A). lia. }
    apply IH; unfold ptr in *; destruct adv; lia.
  - apply Nat.eqb_neq in E. apply IH; unfold ptr in *; destruct adv; lia.
Qed.

(** Whatever fuel is added to that of [finditer], it finds the same. *)
Lemma finditer_fuel r text extra :
  finditer r text = iter_loop r (2 * length text + 2 + extra) false [] text.
Proof. unfold finditer. apply iter_loop_fuel; lia. Qed.

(** ** The expression of the checksum-covered span *)

Lemma rep_any_tail :
  forall s sn mk fuel count last,
    1 <= count -> length s < fuel ->
    same_ptr last (Cursor sn s mk) = false ->
    rep_loop (step any_char) 1 None fuel count last (Cursor sn s mk) =
    longest_first sn s mk ++ [Cursor sn s mk].
Proof.
  induction s as [|c s IH]; intros sn mk fuel count last Hc Hf Hl;
    (destruct fuel as [|fuel]; [simpl in Hf; lia|]); simpl;
    (replace (count <? 1) with false by (symmetry; apply Nat.ltb_ge; lia));
    rewrite Hl; simpl.
  - reflexivity.
  - rewrite app_nil_r, IH; [reflexivity | lia | simpl in Hf; lia |].
    unfold same_ptr, ptr. cbn [todo length]. apply Nat.eqb_neq. lia.
Qed.

Lemma rep_loop_S body lo hi fuel count last z :
  rep_loop body lo hi (S fuel) count last z =
  if count <? lo then
    flat_map (rep_loop body lo hi fuel (S count) last) (body z)
  else
    (if below hi count && negb (same_ptr last z) then
       flat_map (rep_loop body lo hi fuel (S count) (Some (ptr z))) (body z)
     else [])
    ++ [z].
Proof. reflexivity. Qed.

Lemma flat_map_single {A B} (f : A -> list B) (x : A) :
  flat_map f [x] = f x.
Proof. simpl. apply app_nil_r. Qed.

Lemma run_any_plus sn s mk :
  run (Rep (Chr any_char) 1 None) (Cursor sn s mk) = longest_first sn s mk.
Proof.
  cbn [run]. unfold rep_fuel. rewrite rep_loop_S.
  change (0 <? 1) with true. cbv iota.
  change (run (Chr any_char)) with (step any_char).
  destruct s as [|c s]; [reflexivity|].
  change (step any_char (Cursor sn (c :: s) mk)) with [Cursor (c :: sn) s mk].
  rewrite flat_map_single. cbn [longest_first].
  apply rep_any_tail; [lia | unfold ptr; simpl; lia | reflexivity].
Qed.

Lemma is_char_true c x : is_char c x = true <-> x = c.
Proof.
  unfold is_char. rewrite Ascii.eqb_eq. split; congruence.
Qed.

Lemma step_is_char c sn td mk :
  step (is_char c) (Cursor sn td mk) =
  match td with
  | x :: t => if is_char c x then [Cursor (x :: sn) t mk] else []
  | [] => []
  end.
Proof. reflexivity. Qed.

Lemma run_checksum_contents sn td mk :
  run checksum_contents_pattern (Cursor sn td mk) =
  match td with
  | c :: s =>
      if is_char "/" c
      then flat_map (step (is_char "!")) (longest_first (c :: sn) s mk)
      else []
  | [] => []
  end.
Proof.
  unfold checksum_contents_pattern.
  change (run (Cat ?a ?b) ?z) with (flat_map (run b) (run a z)).
  change (run (Chr (is_char "/")) ?z) with (step (is_char "/") z).
  rewrite step_is_char. destruct td as [|c s]; [reflexivity|].
  destruct (is_char "/" c); [|reflexivity].
  rewrite flat_map_single.
  change (run (Cat ?a ?b) ?z) with (flat_map (run b) (run a z)).
  rewrite run_any_plus. reflexivity.
Qed.

Lemma bang_results_nil :
  forall s sn mk,
    flat_map (step (is_char "!")) (longest_first sn s mk) = [] ->
    ~ In "!"%char (tl s).
Proof.
  induction s as [|c s IH]; intros sn mk; simpl; [tauto|].
  rewrite flat_map_app. intros H. apply app_eq_nil in H. destruct H as [H1 H2].
  simpl in H2. rewrite app_nil_r, step_is_char in H2.
  destruct s as [|x t]; [tauto|]. intros [E|E].
  - subst x. rewrite (proj2 (is_char_true _ _) eq_refl) in H2. discriminate.
  - exact (IH _ _ H1 E).
Qed.

Lemma bang_results_hd :
  forall s sn mk z' l,
    flat_map (step (is_char "!")) (longest_first sn s mk) = z' :: l ->
    exists body post,
      s = body ++ "!"%char :: post /\ body <> [] /\ ~ In "!"%char post /\
      z' = Cursor ("!"%char :: rev body ++ sn) post mk.
Proof.
  induction s as [|c s IH]; intros sn mk z' l; simpl; [discriminate|].
  rewrite flat_map_app. simpl. rewrite app_nil_r.
  destruct (flat_map _ (longest_first (c :: sn) s mk)) as [|y ys] eqn:E.
  - apply bang_results_nil in E. simpl. rewrite step_is_char.
    destruct s as [|x t]; [discriminate|].
    destruct (is_char "!" x) eqn:X; [|discriminate].
    apply is_char_true in X. subst x. intros [= <- _].
    exists [c], t. simpl. repeat split; [discriminate | exact E].
  - simpl. intros [= <- _].
    destruct (IH _ _ _ _ E) as (body & post & -> & Hb & Hp & ->).
    exists (c :: body), post. simpl. rewrite <- app_assoc.
    repeat split; [discriminate | exact Hp].
Qed.

Lemma scan_contents_none :
  forall s sn,
    ~ In "!"%char (tl s) -> scan checksum_contents_pattern false sn s = None.
Proof.
  induction s as [|c s IH]; intros sn H; rewrite scan_unfold; unfold attempts;
    rewrite run_checksum_contents; [reflexivity|].
  simpl in H.
  assert (R : (if is_char "/" c
               then flat_map (step (is_char "!")) (longest_first (c :: sn) s [])
               else []) = []).
  { destruct (is_char "/" c); [|reflexivity].
    destruct (flat_map _ _) as [|z' l] eqn:E; [reflexivity|].
    destruct (bang_results_hd _ _ _ _ _ E) as (body & post & -> & _).
    exfalso. apply H, in_or_app. right. now left. }
  rewrite R. apply IH. intros X. apply H. destruct s; [destruct X | now right].
Qed.

Lemma scan_contents_spec :
  forall td sn m,
    scan checksum_contents_pattern false sn td = Some m ->
    exists pre body post,
      td = pre ++ "/"%char :: body ++ "!"%char :: post /\
      ~ In "/"%char pre /\ ~ In "!"%char post /\ body <> [] /\
      group0 m = "/"%char :: body ++ ["!"%char].
Proof.
  induction td as [|c td IH]; intros sn m; rewrite scan_unfold; unfold attempts;
    rewrite run_checksum_contents; [discriminate|].
  destruct (is_char "/" c) eqn:C.
  - apply is_char_true in C. subst c.
    destruct (flat_map _ _) as [|z' l] eqn:E.
    + apply bang_results_nil in E.
      rewrite (scan_contents_none _ _ E). discriminate.
    + intros [= <-].
      destruct (bang_results_hd _ _ _ _ _ E) as (body & post & -> & Hb & Hp & ->).
      exists [], body, post. repeat split; auto.
      unfold group0. simpl fst. simpl snd. apply extends_slice. simpl.
      rewrite <- app_assoc. reflexivity.
  - intros H. destruct (IH _ _ H) as (pre & body & post & -> & Hs & Hp & Hb & G).
    exists (c :: pre), body, post. repeat split; auto.
    intros [X|X]; [|exact (Hs X)]. subst c. discriminate.
Qed.

(** ** The expression of the value groups *)

Lemma rep_class_star p :
  forall s sn mk fuel count last,
    length s < fuel ->
    same_ptr last (Cursor sn s mk) = false ->
    rep_loop (step p) 0 None fuel count last (Cursor sn s mk) =
    backoff p sn s mk.
Proof.
  induction s as [|c s IH]; intros sn mk fuel count last Hf Hl;
    (destruct fuel as [|fuel]; [simpl in Hf; lia|]); rewrite rep_loop_S;
    change (count <? 0) with false; cbv iota; rewrite Hl;
    cbn [below negb andb].
  - reflexivity.
  - unfold step at 2. cbn [todo seen marks backoff]. destruct (p c).
    + rewrite flat_map_single, IH; [reflexivity | simpl in Hf; lia |].
      unfold same_ptr, ptr. cbn [todo length]. apply Nat.eqb_neq. lia.
    + reflexivity.
Qed.

Lemma run_class_star p sn s mk :
  run (Rep (Chr p) 0 None) (Cursor sn s mk) = backoff p sn s mk.
Proof.
  cbn [run]. change (run (Chr p)) with (step p).
  apply rep_class_star; [unfold rep_fuel, ptr; simpl; lia | reflexivity].
Qed.

Lemma span_app p s : s = fst (span p s) ++ snd (span p s).
Proof.
  induction s as [|c s IH]; simpl; [reflexivity|].
  destruct (p c); [|reflexivity].
  destruct (span p s) as [a b]. simpl in *. now rewrite <- IH.
Qed.

Lemma span_all p s : forallb p (fst (span p s)) = true.
Proof.
  induction s as [|c s IH]; simpl; [reflexivity|].
  destruct (p c) eqn:E; [|reflexivity].
  destruct (span p s) as [a b]. simpl in *. now rewrite E.
Qed.

Lemma value_char_not_close c : value_char c = true -> is_char ")" c = false.
Proof.
  intros H. destruct (is_char ")" c) eqn:E; [|reflexivity].
  apply is_char_true in E. subst c. discriminate.
Qed.

Lemma value_char_not_open c : value_char c = true -> is_char "(" c = false.
Proof.
  intros H. destruct (is_char "(" c) eqn:E; [|reflexivity].
  apply is_char_true in E. subst c. discriminate.
Qed.

Lemma closing_after_backoff :
  forall td sn mk,
    flat_map (run (Ahead (is_char ")"))) (backoff value_char sn td mk) =
    match span value_char td with
    | (tok, d :: rest) =>
        if is_char ")" d then [Cursor (rev tok ++ sn) (d :: rest) mk] else []
    | (_, []) => []
    end.
Proof.
  induction td as [|c td IH]; intros sn mk; [reflexivity|].
  cbn [backoff span]. rewrite flat_map_app, flat_map_single.
  cbn [run todo]. unfold look at 2.
  destruct (value_char c) eqn:E.
  - rewrite (value_char_not_close _ E), app_nil_r, IH.
    destruct (span value_char td) as [tok [|d rest]]; [reflexivity|].
    simpl. rewrite <- app_assoc. reflexivity.
  - simpl. destruct (is_char ")" c); reflexivity.
Qed.

(** The group matches exactly the value group that starts here. *)
Lemma run_value_group sn td mk :
  run value_group_pattern (Cursor sn td mk) =
  match token_at sn td with
  | Some tok =>
      [Cursor (rev tok ++ sn) (snd (span value_char td)) ((1, tok) :: mk)]
  | None => []
  end.
Proof.
  unfold value_group_pattern, token_at.
  change (run (Grp ?n ?r) ?z) with (map (set_mark n z) (run r z)).
  change (run (Cat ?a ?b) ?z) with (flat_map (run b) (run a z)).
  change (run (Behind ?p) ?z) with (look p (seen z) z).
  cbn [seen]. unfold look. destruct sn as [|c sn]; [reflexivity|].
  destruct (is_char "(" c); [|reflexivity].
  rewrite flat_map_single.
  change (run (Cat ?a ?b) ?z) with (flat_map (run b) (run a z)).
  rewrite run_class_star, closing_after_backoff.
  pose proof (span_app value_char td) as A.
  destruct (span value_char td) as [tok [|d rest]]; [reflexivity|].
  destruct (is_char ")" d); [|reflexivity].
  cbn [map snd fst] in *. unfold set_mark. cbn [seen todo marks].
  rewrite (extends_slice _ _ tok); [reflexivity | exact A].
Qed.

Lemma token_at_shape sn td tok :
  token_at sn td = Some tok ->
  exists c sn' rest,
    sn = c :: sn' /\ is_char "(" c = true /\
    span value_char td = (tok, ")"%char :: rest).
Proof.
  unfold token_at. destruct sn as [|c sn']; [discriminate|].
  destruct (is_char "(" c) eqn:C; [|discriminate].
  destruct (span value_char td) as [t [|d rest]]; [discriminate|].
  destruct (is_char ")" d) eqn:D; [|discriminate].
  apply is_char_true in D. subst d. intros [= ->].
  exists c, sn', rest. repeat split. exact C.
Qed.

Lemma token_at_after tok sn rest :
  tok <> [] -> forallb value_char tok = true ->
  token_at (rev tok ++ sn) rest = None.
Proof.
  intros Hn Ha. destruct (rev tok) as [|c l] eqn:R.
  - apply (f_equal (@rev ascii)) in R. rewrite rev_involutive in R.
    contradiction.
  - assert (Hc : value_char c = true).
    { rewrite forallb_forall in Ha. apply Ha, in_rev. rewrite R. now left. }
    cbn [app]. unfold token_at.
    now rewrite (value_char_not_open _ Hc).
Qed.

(** All matches of the whole expression at a cursor: the value group
    that starts here, once more when it is empty (the zero-width
    iteration that sre allows once). *)
Lemma run_value_pattern sn td :
  run value_pattern (Cursor sn td []) =
  match token_at sn td with
  | Some [] => [Cursor sn td [(1, []); (1, [])]; Cursor sn td [(1, [])]]
  | Some tok =>
      [Cursor (rev tok ++ sn) (snd (span value_char td)) [(1, tok)]]
  | None => []
  end.
Proof.
  unfold value_pattern. cbn [run]. unfold rep_fuel.
  rewrite rep_loop_S. change (0 <? 1) with true. cbv iota.
  rewrite run_value_group.
  destruct (token_at sn td) as [tok|] eqn:T; [|reflexivity].
  rewrite flat_map_single, rep_loop_S.
  change (1 <? 1) with false. cbv iota. cbn [below same_ptr negb andb].
  rewrite run_value_group.
  destruct (token_at_shape _ _ _ T) as (c & sn' & rest & -> & C & Sp).
  rewrite Sp. cbn [snd].
  destruct tok as [|t tok].
  - cbn [rev app]. unfold token_at. rewrite C. cbn [span].
    change (value_char ")") with false. cbv iota.
    change (is_char ")" ")") with true. cbv iota.
    rewrite flat_map_single. cbn [rev app snd].
    pose proof (span_app value_char td) as A. rewrite Sp in A. cbn in A.
    subst td. change (1 + ?n) with (S n).
    rewrite rep_loop_last by (lia || reflexivity). reflexivity.
  - rewrite token_at_after; [reflexivity | discriminate |].
    pose proof (span_all value_char td) as A. now rewrite Sp in A.
Qed.

Lemma tokens_skip :
  forall tok c sn rest,
    value_char c = true -> forallb value_char tok = true ->
    tokens_from (c :: sn) (tok ++ rest) = tokens_from (rev tok ++ c :: sn) rest.
Proof.
  induction tok as [|t tok IH]; intros c sn rest Hc Ha; [reflexivity|].
  simpl in Ha. apply andb_prop in Ha. destruct Ha as [Ht Ha].
  cbn [app tokens_from]. unfold token_at at 1.
  rewrite (value_char_not_open _ Hc). cbn [app].
  rewrite (IH _ _ _ Ht Ha). cbn [rev]. now rewrite <- app_assoc.
Qed.

Lemma tokens_from_unfold sn td :
  tokens_from sn td =
  match token_at sn td with Some tok => [tok] | None => [] end
  ++ tokens_after true sn td.
Proof. destruct td; reflexivity. Qed.

Lemma iter_value_step fuel :
  (forall adv sn td,
      (adv = true -> token_at sn td = Some []) ->
      2 * length td + 2 <= fuel + (if adv then 1 else 0) ->
      map item1 (iter_loop value_pattern fuel adv sn td) =
      tokens_after adv sn td) ->
  forall td adv sn,
    (adv = true -> token_at sn td = Some []) ->
    2 * length td + 2 <= S fuel + (if adv then 1 else 0) ->
    map item1
        match scan value_pattern adv sn td with
        | None => []
        | Some m =>
            m :: iter_loop value_pattern fuel
                           (negb (advanced (fst m) (snd m)))
                           (seen (snd m)) (todo (snd m))
        end =
    tokens_after adv sn td.
Proof.
  intros IHf. induction td as [|c td IH]; intros adv sn Inv Hf;
    rewrite scan_unfold; unfold attempts; rewrite run_value_pattern.
  - destruct adv.
    + rewrite (Inv eq_refl). simpl. unfold advanced, ptr. simpl. reflexivity.
    + destruct (token_at sn []) as [tok|] eqn:T;
        [|unfold tokens_after; cbn [tokens_from]; rewrite T; reflexivity].
      destruct (token_at_shape _ _ _ T) as (? & ? & ? & _ & _ & Sp).
      discriminate.
  - destruct adv.
    + rewrite (Inv eq_refl). cbn [filter]. unfold advanced, ptr. cbn [todo].
      rewrite Nat.eqb_refl. cbn [negb].
      rewrite IH; [reflexivity | discriminate | simpl in *; lia].
    + destruct (token_at sn (c :: td)) as [tok|] eqn:T.
      * destruct tok as [|t tok].
        -- cbn [map fst snd seen todo]. unfold advanced, ptr. cbn [todo].
           rewrite Nat.eqb_refl. cbn [negb].
           rewrite IHf; [| intros _; exact T | simpl in *; lia].
           change (tokens_after false ?a ?b) with (tokens_from a b).
           rewrite (tokens_from_unfold sn (c :: td)), T. reflexivity.
        -- destruct (token_at_shape _ _ _ T) as (o & sn' & rest & -> & O & Sp).
           pose proof (span_app value_char (c :: td)) as A.
           pose proof (span_all value_char (c :: td)) as B.
           rewrite Sp in A, B |- *. cbn [fst snd] in A, B |- *.
           cbn [map fst snd seen todo]. unfold advanced, ptr. cbn [todo].
           assert (L : length (c :: td) = length (t :: tok) + length (")"%char :: rest)).
           { rewrite A at 1. apply length_app. }
           replace (length (")"%char :: rest) =? length (c :: td)) with false
             by (symmetry; apply Nat.eqb_neq; simpl in L |- *; lia).
           cbn [negb]. rewrite IHf; [| discriminate | simpl in *; lia].
           change (tokens_after false ?a ?b) with (tokens_from a b).
           rewrite (tokens_from_unfold (o :: sn') (c :: td)), T.
           unfold item1, group. cbn [snd marks lookup_mark Nat.eqb app].
           f_equal. unfold tokens_after. clear L T IH Hf Sp.
           cbn [app] in A. injection A as -> ->.
           cbn [forallb] in B. apply andb_prop in B. destruct B as [Bt B].
           rewrite (tokens_skip _ _ _ _ Bt B). cbn [rev].
           now rewrite <- app_assoc.
      * rewrite IH; [| discriminate | simpl in *; lia].
        change (tokens_after false ?a ?b) with (tokens_from a b).
        rewrite (tokens_from_unfold sn (c :: td)), T. reflexivity.
Qed.

Lemma iter_value_tokens :
  forall fuel adv sn td,
    (adv = true -> token_at sn td = Some []) ->
    2 * length td + 2 <= fuel + (if adv then 1 else 0) ->
    map item1 (iter_loop value_pattern fuel adv sn td) =
    tokens_after adv sn td.
Proof.
  induction fuel as [|fuel IH]; intros adv sn td Inv Hf.
  - destruct adv; lia.
  - cbn [iter_loop]. apply (iter_value_step fuel IH); assumption.
Qed.

(** [re.findall] with the expression of the value groups yields the
    value groups of the line. *)
Lemma findall_value_tokens line :
  findall1 value_pattern line = tokens line.
Proof.
  unfold findall1, finditer, tokens.
  change (map _ ?l) with (map item1 l).
  rewrite iter_value_tokens; [reflexivity | discriminate | lia].
Qed.

(** ** The expression of the expected checksum *)

Lemma run_rep4 p sn td mk :
  run (Rep (Chr p) 4 (Some 4)) (Cursor sn td mk) =
  match td with
  | c1 :: c2 :: c3 :: c4 :: rest =>
      if p c1 && p c2 && p c3 && p c4
      then [Cursor (c4 :: c3 :: c2 :: c1 :: sn) rest mk]
      else []
  | _ => []
  end.
Proof.
  cbn [run]. unfold rep_fuel. change (run (Chr p)) with (step p).
  destruct td as [|c1 [|c2 [|c3 [|c4 rest]]]]; cbn;
    repeat match goal with
           | |- context [if p ?c then _ else _] => destruct (p c); cbn
           end; reflexivity.
Qed.

Lemma run_checksum_hex_group sn td mk :
  run checksum_hex_group (Cursor sn td mk) =
  match sn, td with
  | b :: _, c1 :: c2 :: c3 :: c4 :: rest =>
      if is_char "!" b && (digit_or_upper c1 && digit_or_upper c2
                           && digit_or_upper c3 && digit_or_upper c4)
      then [Cursor (c4 :: c3 :: c2 :: c1 :: sn) rest
                   ((1, [c1; c2; c3; c4]) :: mk)]
      else []
  | _, _ => []
  end.
Proof.
  unfold checksum_hex_group.
  change (run (Grp ?n ?r) ?z) with (map (set_mark n z) (run r z)).
  change (run (Cat ?a ?b) ?z) with (flat_map (run b) (run a z)).
  change (run (Behind ?p) ?z) with (look p (seen z) z).
  cbn [seen]. unfold look. destruct sn as [|b sn].
  - destruct td as [|c1 [|c2 [|c3 [|c4 rest]]]]; reflexivity.
  - destruct (is_char "!" b).
    + rewrite flat_map_single, run_rep4.
      destruct td as [|c1 [|c2 [|c3 [|c4 rest]]]]; try reflexivity.
      cbn [andb]. destruct (_ && _ && _ && _); [|reflexivity].
      cbn [map]. unfold set_mark. cbn [seen todo marks].
      rewrite (extends_slice _ _ [c1; c2; c3; c4]); reflexivity.
    + destruct td as [|c1 [|c2 [|c3 [|c4 rest]]]]; reflexivity.
Qed.

Lemma digit_or_upper_not_bang c :
  digit_or_upper c = true -> is_char "!" c = false.
Proof.
  intros H. destruct (is_char "!" c) eqn:E; [|reflexivity].
  apply is_char_true in E. subst c. discriminate.
Qed.

(** The group cannot be repeated: a second iteration would need [!]
    where the first has just read a character of [[0-9A-Z]]. *)
Lemma run_checksum_hex sn td :
  run checksum_hex_pattern (Cursor sn td []) =
  run checksum_hex_group (Cursor sn td []).
Proof.
  unfold checksum_hex_pattern. cbn [run]. unfold rep_fuel.
  rewrite rep_loop_S. change (0 <? 1) with true. cbv iota.
  rewrite run_checksum_hex_group.
  destruct sn as [|b sn]; [reflexivity|].
  destruct td as [|c1 [|c2 [|c3 [|c4 rest]]]]; try reflexivity.
  destruct (is_char "!" b); [|reflexivity]. cbn [andb].
  destruct (digit_or_upper c1); [|reflexivity].
  destruct (digit_or_upper c2); [|reflexivity].
  destruct (digit_or_upper c3); [|reflexivity].
  destruct (digit_or_upper c4) eqn:D4; [|reflexivity]. cbn [andb].
  rewrite flat_map_single, rep_loop_S.
  change (1 <? 1) with false. cbv iota. cbn [below same_ptr negb andb].
  rewrite run_checksum_hex_group.
  rewrite (digit_or_upper_not_bang _ D4).
  destruct rest as [|d1 [|d2 [|d3 [|d4 rest]]]]; reflexivity.
Qed.

(** What [checksum_hex.group(0)] can be: four characters of [[0-9A-Z]]
    that follow a [!]. *)
Lemma checksum_hex_shape telegram m :
  search checksum_hex_pattern telegram = Some m ->
  exists pre c1 c2 c3 c4 post,
    telegram = pre ++ "!"%char :: c1 :: c2 :: c3 :: c4 :: post /\
    group0 m = [c1; c2; c3; c4] /\
    forallb digit_or_upper [c1; c2; c3; c4] = true.
Proof.
  unfold search. intros H.
  destruct (scan_sound _ _ _ _ _ H) as (pre & T & S & Mk & R).
  destruct m as [[sn td mk] z']. cbn [fst snd seen todo marks] in *.
  subst mk. rewrite run_checksum_hex, run_checksum_hex_group in R.
  destruct sn as [|b sn]; [destruct R|].
  destruct td as [|c1 [|c2 [|c3 [|c4 rest]]]]; try destruct R.
  destruct (is_char "!" b) eqn:B; [|destruct R]. cbn [andb] in R.
  destruct (_ && _ && _ && _) eqn:D; [|destruct R].
  destruct R as [<-|[]]. apply is_char_true in B. subst b.
  rewrite app_nil_r in S.
  destruct pre as [|x pre] using rev_ind; [discriminate|].
  rewrite rev_app_distr in S. cbn in S. injection S as -> _.
  exists pre, c1, c2, c3, c4, rest. repeat split.
  - rewrite T, <- app_assoc. reflexivity.
  - unfold group0. cbn [fst snd]. apply extends_slice. reflexivity.
  - cbn [forallb]. rewrite andb_true_r.
    repeat (apply andb_prop in D; destruct D as [D ?]).
    repeat (apply andb_true_intro; split); assumption.
Qed.

End Matcher.

(** * The value groups before an opening parenthesis *)

Section OpenPrefix.

(** A run of value characters stops at an opening parenthesis at the
    latest, whatever follows it. *)
Lemma span_stop :
  forall s rest : str,
    span value_char (s ++ "("%char :: rest) =
    match snd (span value_char s) with
    | [] => (fst (span value_char s), "("%char :: rest)
    | d :: r => (fst (span value_char s), d :: r ++ "("%char :: rest)
    end.
Proof.
  induction s as [|c s IH]; intros rest; [reflexivity|].
  cbn [app span]. destruct (value_char c); [|reflexivity].
  rewrite IH. destruct (span value_char s) as [t [|d r]]; reflexivity.
Qed.

Lemma token_at_open_indep sn (s rest rest' : str) :
  token_at sn (s ++ "("%char :: rest) = token_at sn (s ++ "("%char :: rest').
Proof.
  unfold token_at. destruct sn as [|c sn]; [reflexivity|].
  destruct (is_char "(" c); [|reflexivity]. rewrite !span_stop.
  destruct (snd (span value_char s)) as [|d r]; reflexivity.
Qed.

(** The value groups found up to an opening parenthesis do not depend on
    what follows it. *)
Lemma tokens_from_open_prefix :
  forall pre sn rest,
    tokens_from sn (pre ++ "("%char :: rest) =
    tokens_from sn (pre ++ ["("%char])
    ++ tokens_from ("("%char :: rev pre ++ sn) rest.
Proof.
  induction pre as [|c pre IH]; intros sn rest.
  - pose proof (token_at_open_indep sn [] rest []) as X. cbn [app] in X.
    cbn [app rev tokens_from]. rewrite X.
    replace (token_at ("("%char :: sn) []) with (@None str) by reflexivity.
    cbn [app]. now rewrite app_nil_r.
  - pose proof (token_at_open_indep sn (c :: pre) rest []) as X.
    cbn [app] in X. cbn [app rev tokens_from].
    rewrite X, (IH (c :: sn) rest), <- !app_assoc. reflexivity.
Qed.

End OpenPrefix.

(** * Properties of the object decoders *)

Section ObjectDecoder.

Variables W V : Type.
Implicit Types (formats : list (ValueParser W V)) (w : W).

Lemma line_values_tokens line :
  line_values line = map none_if_empty (tokens line).
Proof. unfold line_values. now rewrite findall_value_tokens. Qed.

Lemma nth_error_at {A} (pre : list A) (x : A) (l : list A) :
  nth_error (pre ++ x :: l) (length pre) = Some x.
Proof. induction pre as [|y pre IH]; [reflexivity | exact IH]. Qed.

(** Indexing the formats by position is pairing them with the values. *)
Lemma parse_each_decode :
  forall formats values pre w,
    length values = length formats ->
    parse_each (pre ++ formats) (length pre) values w =
    decode_each formats values w.
Proof.
  induction formats as [|f formats IH]; intros [|value values] pre w L;
    try discriminate L; [reflexivity|].
  cbn [parse_each decode_each]. rewrite nth_error_at. unfold bind.
  destruct (ValueParser_parse f value w) as [[g|e] w1]; [|reflexivity].
  replace (pre ++ f :: formats) with ((pre ++ [f]) ++ formats)
    by (rewrite <- app_assoc; reflexivity).
  replace (S (length pre)) with (length (pre ++ [f]))
    by (rewrite length_app; simpl; lia).
  rewrite IH; [reflexivity | simpl in L; lia].
Qed.

Lemma parse_each_length :
  forall values formats i w gs w',
    parse_each formats i values w = (Return gs, w') ->
    length gs = length values.
Proof.
  induction values as [|value values IH]; intros formats i w gs w'; simpl.
  - intros [= <- _]. reflexivity.
  - destruct (nth_error formats i) as [f|]; [|discriminate]. unfold bind.
    destruct (ValueParser_parse f value w) as [[g|e] w1]; [|discriminate].
    destruct (parse_each formats (S i) values w1) as [[gs'|e] w2] eqn:E;
      [|discriminate].
    intros [= <- _]. simpl. f_equal. exact (IH _ _ _ _ _ E).
Qed.

Lemma _parse_returns formats line w gs w' :
  _parse formats line w = (Return gs, w') ->
  length (tokens line) = length formats /\ tokens line <> [] /\
  length gs = length (tokens line) /\
  parse_each formats 0 (line_values line) w = (Return gs, w').
Proof.
  unfold _parse. rewrite line_values_tokens, length_map.
  destruct (tokens line) as [|t ts] eqn:T; [discriminate|].
  cbn [map orb].
  destruct (length (t :: ts) =? length formats) eqn:L; [|discriminate].
  apply Nat.eqb_eq in L. cbn [negb]. intros H. repeat split.
  - exact L.
  - discriminate.
  - apply parse_each_length in H. rewrite H. cbn [length].
    now rewrite length_map.
  - exact H.
Qed.

(** C1 (amended): line decoding raises ParseError whenever the number of
    value tokens extracted from the line differs from the number N of
    configured value-format decoders or is zero; when the count equals N
    and is not zero it decodes each token with the decoder at the same
    place. *)
Theorem parse_line_count formats line w :
  (length (tokens line) <> length formats \/ length (tokens line) = 0 ->
   _parse formats line w = (Raise ParseError, w)) /\
  (length (tokens line) = length formats -> length (tokens line) <> 0 ->
   _parse formats line w =
   decode_each formats (map none_if_empty (tokens line)) w).
Proof.
  unfold _parse. rewrite line_values_tokens, length_map. split.
  - intros [H|H].
    + apply Nat.eqb_neq in H. rewrite H. cbn [negb].
      rewrite orb_true_r. reflexivity.
    + destruct (tokens line); [reflexivity | simpl in H; discriminate H].
  - intros H N. destruct (tokens line) as [|t ts] eqn:T; [contradiction|].
    rewrite (proj2 (Nat.eqb_eq _ _) H). cbn [map orb negb].
    apply (parse_each_decode formats _ []).
    rewrite <- H. cbn [length]. now rewrite length_map.
Qed.

(** C10: a decoder configured with no value-format decoder raises
    ParseError on every line, also on a line without any value token,
    where the extracted count equals the configured count. *)
Theorem parse_no_formats line w :
  _parse (@nil (ValueParser W V)) line w = (Raise ParseError, w).
Proof.
  unfold _parse. destruct (line_values line); reflexivity.
Qed.

Lemma _parse_decode formats line w :
  length (tokens line) = length formats -> length (tokens line) <> 0 ->
  _parse formats line w =
  decode_each formats (map none_if_empty (tokens line)) w.
Proof.
  intros H N. unfold _parse. rewrite line_values_tokens, length_map.
  destruct (tokens line) as [|t ts] eqn:T; [contradiction|].
  rewrite (proj2 (Nat.eqb_eq _ _) H). cbn [map orb negb].
  apply (parse_each_decode formats _ []).
  rewrite <- H. cbn [length]. now rewrite length_map.
Qed.

(** C4 (amended): on a line whose count of extracted tokens equals the
    configured count and is not zero, the M-Bus decoder decodes each
    token with the decoder at the same place, raising what a value
    decoder raises, and wraps the decoded groups in the two-value shape
    when exactly two tokens were extracted and in the other shape for
    every other count; nothing but the count decides the shape. *)
Theorem mbus_shape_by_count formats line w :
  length (tokens line) = length formats -> length (tokens line) <> 0 ->
  MBusParser_parse formats line w =
  (values <- decode_each formats (map none_if_empty (tokens line)) ;;
   ret (if length (tokens line) =? 2 then MBusObject values
        else MBusObjectV2_2 values)) w.
Proof.
  intros H N. unfold MBusParser_parse, bind.
  rewrite <- (_parse_decode formats line w H N).
  destruct (_parse formats line w) as [[values|e] w1] eqn:E; [|reflexivity].
  destruct (_parse_returns _ _ _ _ _ E) as (_ & _ & Lv & _).
  rewrite Lv. destruct (length (tokens line) =? 2); reflexivity.
Qed.

(** C9: the Profile-Generic decoder signals that it is unimplemented on
    every line and never returns an object. *)
Theorem profile_generic_unimplemented formats line w :
  ProfileGenericParser_parse formats line w = (Raise NotImplementedError, w).
Proof. reflexivity. Qed.

(** ** Empty value groups *)

Lemma tokens_from_empty_group post :
  forall pre sn,
    exists l1 l2,
      tokens_from sn (pre ++ "("%char :: ")"%char :: post) = l1 ++ [] :: l2.
Proof.
  induction pre as [|c pre IH]; intros sn.
  - cbn [app tokens_from].
    exists (match token_at sn ("("%char :: ")"%char :: post) with
            | Some tok => [tok] | None => [] end).
    exists (tokens_from (")"%char :: "("%char :: sn) post).
    reflexivity.
  - destruct (IH (c :: sn)) as (l1 & l2 & E).
    exists (match token_at sn ((c :: pre) ++ "("%char :: ")"%char :: post) with
            | Some tok => [tok] | None => [] end ++ l1), l2.
    cbn [app tokens_from]. rewrite E, <- app_assoc. reflexivity.
Qed.

Lemma nth_error_replace_same {A} (x : A) :
  forall l i, nth_error (replace_nth i x l) i =
              match nth_error l i with Some _ => Some x | None => None end.
Proof.
  induction l as [|y l IH]; intros [|i]; simpl; auto.
Qed.

Lemma nth_error_replace_other {A} (x : A) :
  forall l i j, i <> j ->
                nth_error (replace_nth i x l) j = nth_error l j.
Proof.
  induction l as [|y l IH]; intros i j H.
  - destruct i; reflexivity.
  - destruct i as [|i], j as [|j]; simpl; try reflexivity;
      [congruence | apply IH; lia].
Qed.

Lemma parse_each_replace_past f' :
  forall values formats i k w,
    i < k ->
    parse_each (replace_nth i f' formats) k values w =
    parse_each formats k values w.
Proof.
  induction values as [|value values IH]; intros formats i k w H;
    [reflexivity|].
  cbn [parse_each]. rewrite nth_error_replace_other by lia.
  destruct (nth_error formats k) as [f|]; [|reflexivity]. unfold bind.
  destruct (ValueParser_parse f value w) as [[g|e] w1]; [|reflexivity].
  rewrite IH by lia. reflexivity.
Qed.

(** The decoder at the place of an absent value does not matter. *)
Lemma parse_each_replace f' :
  forall values formats i k w,
    k <= i -> nth_error values (i - k) = Some None ->
    parse_each (replace_nth i f' formats) k values w =
    parse_each formats k values w.
Proof.
  induction values as [|value values IH]; intros formats i k w H N;
    [reflexivity|].
  cbn [parse_each]. destruct (Nat.eq_dec k i) as [->|D].
  - rewrite Nat.sub_diag in N. injection N as ->.
    rewrite nth_error_replace_same.
    destruct (nth_error formats i) as [f|]; [|reflexivity].
    unfold bind. rewrite !parse_absent.
    rewrite parse_each_replace_past by lia. reflexivity.
  - rewrite nth_error_replace_other by lia.
    destruct (nth_error formats k) as [f|]; [|reflexivity]. unfold bind.
    destruct (ValueParser_parse f value w) as [[g|e] w1]; [|reflexivity].
    rewrite IH; [reflexivity | lia |].
    replace (i - k) with (S (i - S k)) in N by lia. exact N.
Qed.

Lemma parse_each_absent :
  forall values formats k w gs w' j,
    parse_each formats k values w = (Return gs, w') ->
    nth_error values j = Some None ->
    nth_error gs j = Some (ValueGroup None None).
Proof.
  induction values as [|value values IH]; intros formats k w gs w' j;
    cbn [parse_each]; [destruct j; discriminate|].
  destruct (nth_error formats k) as [f|]; [|discriminate]. unfold bind.
  destruct (ValueParser_parse f value w) as [[g|e] w1] eqn:P; [|discriminate].
  destruct (parse_each formats (S k) values w1) as [[gs'|e] w2] eqn:E;
    [|discriminate].
  intros [= <- _]. destruct j as [|j]; simpl.
  - intros [= ->]. rewrite parse_absent in P. now injection P as <- _.
  - apply (IH _ _ _ _ _ _ E).
Qed.

Lemma length_replace_nth {A} (x : A) :
  forall l i, length (replace_nth i x l) = length l.
Proof.
  induction l as [|y l IH]; intros [|i]; simpl; auto.
Qed.

(** C5: in a line [pre ++ "()" ++ post] the empty group is the value
    token at the place that follows the tokens of [pre ++ "("], and that
    token is empty; the value decoder returns absent value and absent
    unit for an absent value without touching anything; and at every
    place [i] of the line where the token is empty, whatever coercion is
    configured at place [i], line decoding behaves the same, so that
    coercion is never invoked for the group, and the decoded group at
    place [i] has absent value and absent unit. *)
Theorem empty_group_absent (line : str) :
  (forall pre post : str,
      line = pre ++ "()" ++ post ->
      nth_error (tokens line) (length (tokens (pre ++ "("))) = Some []) /\
  (forall (f : ValueParser W V) w,
      ValueParser_parse f None w = (Return (ValueGroup None None), w)) /\
  (forall i,
      nth_error (tokens line) i = Some [] ->
      (forall formats (f' : ValueParser W V) w,
          _parse (replace_nth i f' formats) line w = _parse formats line w) /\
      (forall formats w values w',
          _parse formats line w = (Return values, w') ->
          nth_error values i = Some (ValueGroup None None))).
Proof.
  split; [|split].
  - intros pre post ->.
    change (pre ++ "()" ++ post) with (pre ++ "("%char :: ")"%char :: post).
    change (pre ++ "(") with (pre ++ ["("%char]).
    unfold tokens. rewrite tokens_from_open_prefix.
    rewrite (tokens_from_unfold ("("%char :: rev pre ++ [])).
    replace (token_at ("("%char :: rev pre ++ []) (")"%char :: post))
      with (Some ([] : str)) by reflexivity.
    cbn [app]. apply nth_error_at.
  - intros f w. apply parse_absent.
  - intros i T.
    assert (N : nth_error (line_values line) i = Some None).
    { rewrite line_values_tokens.
      rewrite (map_nth_error none_if_empty i (tokens line) T). reflexivity. }
    split.
    + intros formats f' w. unfold _parse. rewrite length_replace_nth.
      destruct (_ || _); [reflexivity|].
      apply parse_each_replace; [lia | now rewrite Nat.sub_0_r].
    + intros formats w values w' H.
      destruct (_parse_returns _ _ _ _ _ H) as (_ & _ & _ & P).
      exact (parse_each_absent _ _ _ _ _ _ _ P N).
Qed.

End ObjectDecoder.

(** * Properties of the value decoder on present tokens *)

Section ValueUnit.

Variables W V : Type.
Implicit Types (self : ValueParser W V) (w : W).

Lemma split_length (sep : ascii) (s : str) :
  length (split sep s) = S (count_occ ascii_dec s sep).
Proof.
  induction s as [|c s IH]; [reflexivity|]. cbn [split count_occ].
  destruct (Ascii.eqb c sep) eqn:E.
  - apply Ascii.eqb_eq in E. subst c.
    destruct (ascii_dec sep sep); [|contradiction]. simpl. now rewrite IH.
  - apply Ascii.eqb_neq in E.
    destruct (ascii_dec c sep); [contradiction|].
    destruct (split sep s); [discriminate IH | exact IH].
Qed.

(** X13: a present token with two or more [*] makes the value decoder
    raise ValueError: the split does not unpack into a value and a unit,
    and the coercion is not invoked. *)
Lemma parse_many_units self (token : str) w :
  2 <= count_occ ascii_dec token "*"%char ->
  ValueParser_parse self (Some token) w = (Raise ValueError, w).
Proof.
  intros H. unfold ValueParser_parse.
  assert (Hc : contains "*" token = true).
  { apply contains_In, (count_occ_In ascii_dec). lia. }
  assert (Ht : truthy (Some token) = true).
  { destruct token; [simpl in H; lia | reflexivity]. }
  rewrite Hc, Ht. cbn [andb].
  pose proof (split_length "*" token) as L.
  destruct (split "*" token) as [|a [|b [|c l]]]; simpl in L; try lia;
    reflexivity.
Qed.

(** C3 (amended): for a present token, if it contains no [*] the value
    is the coercion of the whole token and the unit is absent; if it
    contains exactly one [*] the value is the coercion of the text
    before it and the unit is the text after it. *)
Theorem value_parser_single_star self (token : str) w :
  (~ In "*"%char token ->
   ValueParser_parse self (Some token) w =
   (x <- coerce_type self token ;; ret (ValueGroup (Some x) None)) w) /\
  (forall a b : str,
      token = a ++ "*"%char :: b -> ~ In "*"%char a -> ~ In "*"%char b ->
      ValueParser_parse self (Some token) w =
      (x <- coerce_type self a ;; ret (ValueGroup (Some x) (Some b))) w).
Proof.
  split.
  - apply parse_plain.
  - intros a b -> Ha Hb. now apply parse_with_unit.
Qed.

End ValueUnit.

(** * Properties of the telegram decoder *)

Section TelegramDecoder.

Variables W V : Type.
Variable crc16 : str -> Z.
Variable re_compile : str -> option regex.

(** C6: a telegram without any [!] makes the checksum validation raise
    ParseError, hence never InvalidChecksumError. *)
Theorem validate_without_terminator (telegram : str) :
  ~ In "!"%char telegram ->
  validate_checksum crc16 telegram = Raise ParseError.
Proof.
  intros H. unfold validate_checksum, search.
  rewrite scan_contents_none; [reflexivity|].
  intros X. apply H. destruct telegram; [destruct X | now right].
Qed.

(** C2 (amended): for a telegram accepted by the checksum validation,
    the span over which CRC16 is computed is the substring from the
    first [/] through the last [!] of the text, inclusive, with at
    least one character in between, and the expected checksum read
    from the text equals the CRC16 of that span. *)
Theorem checksum_span_first_to_last (telegram : str) :
  validate_checksum crc16 telegram = Return tt ->
  exists pre body post : str,
    telegram = pre ++ "/"%char :: body ++ "!"%char :: post /\
    ~ In "/"%char pre /\ ~ In "!"%char post /\ body <> [] /\
    option_map group0 (search checksum_contents_pattern telegram) =
    Some ("/"%char :: body ++ ["!"%char]) /\
    exists hex,
      option_map group0 (search checksum_hex_pattern telegram) = Some hex /\
      int_base16 hex = Some (crc16 ("/"%char :: body ++ ["!"%char])).
Proof.
  unfold validate_checksum.
  destruct (search checksum_contents_pattern telegram) as [m|] eqn:C;
    [|discriminate].
  destruct (search checksum_hex_pattern telegram) as [h|]; [|discriminate].
  destruct (int_base16 (group0 h)) as [expected|] eqn:I; [|discriminate].
  destruct (crc16 (group0 m) =? expected)%Z eqn:E; [|discriminate].
  intros _. apply Z.eqb_eq in E.
  destruct (scan_contents_spec _ _ _ C) as (pre & body & post & T & P1 & P2 & B & G).
  exists pre, body, post. repeat split; auto.
  - cbn [option_map]. now rewrite G.
  - exists (group0 h). split; [reflexivity|]. now rewrite I, <- G, E.
Qed.

(** ** The keys of a decoded telegram *)

Lemma keys_dict_set {A} (k : str) (v : A) (d : dict A) (x : str) :
  In x (keys (dict_set k v d)) <-> x = k \/ In x (keys d).
Proof.
  induction d as [|[k' v'] d IH]; simpl.
  - intuition congruence.
  - destruct (str_eq_dec k' k) as [->|N]; simpl; [intuition congruence|].
    rewrite IH. intuition congruence.
Qed.

Lemma parse_items_keys :
  forall (items : dict (DSMRObjectParser W V)) data telegram w result w',
    parse_items re_compile items data telegram w = (Return result, w') ->
    forall sig,
      In sig (keys result) <->
      In sig (keys telegram) \/
      (In sig (keys items) /\
       exists r, re_compile sig = Some r /\ search r data <> None).
Proof.
  induction items as [|[s0 p] items IH]; intros data telegram w result w';
    cbn [parse_items].
  - intros [= <- _] sig. simpl. tauto.
  - destruct (re_compile s0) as [r|] eqn:R; [|discriminate].
    destruct (search r data) as [m|] eqn:S.
    + unfold bind at 1.
      destruct (parser_parse p (group0 m) w) as [[obj|e] w1]; [|discriminate].
      intros H sig. rewrite (IH _ _ _ _ _ H sig), keys_dict_set. simpl.
      split.
      * intros [[->|H1]|(H1 & H2)]; auto.
        right. split; [now left|]. exists r. split; [exact R|].
        rewrite S. discriminate.
      * intros [H1|([->|H1] & H2)]; auto.
    + intros H sig. rewrite (IH _ _ _ _ _ H sig). simpl. split.
      * intros [H1|(H1 & H2)]; auto.
      * intros [H1|([->|H1] & H2)]; auto.
        destruct H2 as (r' & R' & S'). rewrite R in R'.
        injection R' as <-. contradiction.
Qed.

Lemma parse_items_skip sig p r data :
  re_compile sig = Some r -> search r data = None ->
  forall (items1 items2 : dict (DSMRObjectParser W V)) telegram w,
    parse_items re_compile (items1 ++ (sig, p) :: items2) data telegram w =
    parse_items re_compile (items1 ++ items2) data telegram w.
Proof.
  intros R S. induction items1 as [|[s0 p0] items1 IH];
    intros items2 telegram w; cbn [app parse_items].
  - now rewrite R, S.
  - destruct (re_compile s0) as [r0|]; [|reflexivity].
    destruct (search r0 data) as [m|]; [|apply IH].
    unfold bind.
    destruct (parser_parse p0 (group0 m) w) as [[obj|e] w1]; [|reflexivity].
    apply IH.
Qed.

(** C8: the mapping returned by the telegram decoder has a key for a
    signature of the specification exactly when that signature matches
    some substring of the telegram text, and has no other key; a
    signature that does not match is skipped, the decoder behaving as
    if the specification did not contain it. *)
Theorem parse_keys_iff_match (self : TelegramParser W V) (data : str) w :
  (forall telegram w',
      parse crc16 re_compile self data w = (Return telegram, w') ->
      forall sig,
        In sig (keys telegram) <->
        In sig (keys (telegram_specification self)) /\
        exists r, re_compile sig = Some r /\ matches_substring r data) /\
  (forall items1 sig p items2 r,
      telegram_specification self = items1 ++ (sig, p) :: items2 ->
      re_compile sig = Some r -> ~ matches_substring r data ->
      parse crc16 re_compile self data w =
      parse crc16 re_compile
            (Build_TelegramParser (items1 ++ items2)
                                  (enable_checksum_validation self))
            data w).
Proof.
  split.
  - intros telegram w'. unfold parse, bind.
    destruct (_ w) as [[[]|e] w1]; [|discriminate].
    intros H sig. rewrite (parse_items_keys _ _ _ _ _ _ H sig). simpl.
    split.
    + intros [[]|(H1 & r & R & S)]. split; [exact H1|].
      exists r. split; [exact R | now apply search_matches].
    + intros (H1 & r & R & S). right. split; [exact H1|].
      exists r. split; [exact R | now apply search_matches].
  - intros items1 sig p items2 r E R N. unfold parse, bind.
    cbn [telegram_specification enable_checksum_validation].
    destruct (_ w) as [[[]|e] w1]; [|reflexivity].
    rewrite E. apply (parse_items_skip sig p r data R).
    destruct (search r data) eqn:S; [|reflexivity].
    exfalso. apply N, search_matches. rewrite S. discriminate.
Qed.

End TelegramDecoder.

(** * The decoder on sample data *)

Example crc16_check_value : CRC16_calculate "123456789" = 47933%Z.
Proof. reflexivity. Qed.

(** The matcher on small expressions: a greedy and a lazy repeat, the
    last iteration of a repeated group, and empty matches next to others. *)
Example greedy_repeat :
  option_map group0
    (search (Cat (Chr (is_char "<")) (Cat (Rep (Chr any_char) 1 None)
                                          (Chr (is_char ">")))) "a<b><c>d")
  = Some ("<b><c>" : str).
Proof. vm_compute. reflexivity. Qed.

Example lazy_repeat :
  option_map group0
    (search (Cat (Chr (is_char "<")) (Cat (Lazy (Chr any_char) 1 None)
                                          (Chr (is_char ">")))) "a<b><c>d")
  = Some ("<b>" : str).
Proof. vm_compute. reflexivity. Qed.

Example repeated_group :
  option_map (fun m => (group0 m, group 1 m))
    (search (Rep (Grp 1 (Alt (Chr (is_char "a")) (Chr (is_char "b")))) 1 None)
            "xabay")
  = Some ("aba" : str, Some ("a" : str)).
Proof. vm_compute. reflexivity. Qed.

Example empty_matches :
  map group0 (finditer (Rep (Chr (is_char "a")) 0 None) "baac")
  = [[]; "aa" : str; []; []].
Proof. vm_compute. reflexivity. Qed.

Example sample_tokens :
  tokens gas_line = ["101209110000W" : str; "12785.123*m3" : str].
Proof. vm_compute. reflexivity. Qed.

Example sample_accepted :
  validate_checksum CRC16_calculate sample_telegram = Return tt.
Proof. vm_compute. reflexivity. Qed.

Example sample_decoded :
  parse CRC16_calculate sample_compile sample_parser sample_telegram tt =
  (Return sample_result, tt).
Proof. vm_compute. reflexivity. Qed.

(** A coercion is called once for a present value and not at all for an
    empty group. *)
Example counting_present :
  _parse [counting_parser] "0-0:96.1.1(4530)" 0 =
  (Return [ValueGroup (Some ("4530" : str)) None], 1).
Proof. vm_compute. reflexivity. Qed.

Example counting_absent :
  _parse [counting_parser] "0-0:96.1.1()" 0 =
  (Return [ValueGroup None None], 0).
Proof. vm_compute. reflexivity. Qed.

Lemma contains_not_In (c : ascii) (s : str) :
  contains c s = false -> ~ In c s.
Proof.
  intros H X. apply contains_In in X. rewrite X in H. discriminate.
Qed.

(** C7: on a telegram whose checksum field holds a letter beyond [F], the
    checksum validation ends in ValueError, which is neither ParseError
    nor InvalidChecksumError, whatever CRC16 computes. *)
Theorem validate_non_hex_checksum (crc16 : str -> Z) :
  validate_checksum crc16 damaged_telegram = Raise ValueError.
Proof. vm_compute. reflexivity. Qed.

(** C1 as stated fails: with no value-format decoder and a line without
    value tokens the counts are equal, yet the line is refused instead of
    being decoded to the empty list. *)
Lemma no_formats_no_tokens_refused :
  length (tokens "0-0:96.1.1") = length (@nil (ValueParser unit str)) /\
  _parse (@nil (ValueParser unit str)) "0-0:96.1.1" tt <>
  decode_each (@nil (ValueParser unit str))
              (map none_if_empty (tokens "0-0:96.1.1")) tt.
Proof. split; [vm_compute; reflexivity | vm_compute; discriminate]. Qed.

Lemma parse_line_count_witness :
  (length (tokens "0-0:96.1.1(4530)(00)") <> length [str_parser] \/
   length (tokens "0-0:96.1.1(4530)(00)") = 0) /\
  _parse [str_parser] "0-0:96.1.1(4530)(00)" tt = (Raise ParseError, tt) /\
  length (tokens gas_line) = length [str_parser; str_parser] /\
  length (tokens gas_line) <> 0 /\
  _parse [str_parser; str_parser] gas_line tt =
  decode_each [str_parser; str_parser] (map none_if_empty (tokens gas_line)) tt.
Proof.
  assert (H1 : length (tokens "0-0:96.1.1(4530)(00)") <> length [str_parser] \/
               length (tokens "0-0:96.1.1(4530)(00)") = 0)
    by (left; vm_compute; lia).
  assert (H2 : length (tokens gas_line) = length [str_parser; str_parser])
    by (vm_compute; reflexivity).
  assert (H3 : length (tokens gas_line) <> 0) by (vm_compute; lia).
  split; [exact H1|].
  split; [exact (proj1 (parse_line_count unit str [str_parser] _ tt) H1)|].
  split; [exact H2|]. split; [exact H3|].
  exact (proj2 (parse_line_count unit str [str_parser; str_parser] _ tt) H2 H3).
Defined.

(** C2 as stated fails: this telegram is accepted, and the span that was
    checked runs through its second [!], not through the first. *)
Lemma checksum_span_two_terminators :
  validate_checksum CRC16_calculate "/a!b!4873" = Return tt /\
  option_map group0 (search checksum_contents_pattern "/a!b!4873") <>
  span_first_to_first "/a!b!4873".
Proof. split; [vm_compute; reflexivity | vm_compute; discriminate]. Qed.

Lemma checksum_span_first_to_last_witness :
  validate_checksum CRC16_calculate "/a!b!4873" = Return tt /\
  exists pre body post : str,
    ("/a!b!4873" : str) = pre ++ "/"%char :: body ++ "!"%char :: post /\
    ~ In "/"%char pre /\ ~ In "!"%char post /\ body <> [] /\
    option_map group0 (search checksum_contents_pattern "/a!b!4873") =
    Some ("/"%char :: body ++ ["!"%char]) /\
    exists hex,
      option_map group0 (search checksum_hex_pattern "/a!b!4873") = Some hex /\
      int_base16 hex =
      Some (CRC16_calculate ("/"%char :: body ++ ["!"%char])).
Proof.
  assert (H : validate_checksum CRC16_calculate "/a!b!4873" = Return tt)
    by (vm_compute; reflexivity).
  split; [exact H|].
  exact (checksum_span_first_to_last CRC16_calculate "/a!b!4873" H).
Defined.

(** C3 as stated fails: on a token with two [*] the decoder raises
    ValueError instead of splitting at the first one. *)
Lemma value_parser_two_stars :
  contains "*" "1*2*3" = true /\
  ValueParser_parse str_parser (Some ("1*2*3" : str)) tt <>
  (x <- coerce_type str_parser (fst (partition_first "*" "1*2*3")) ;;
   ret (ValueGroup (Some x) (Some (snd (partition_first "*" "1*2*3"))))) tt.
Proof. split; [reflexivity | vm_compute; discriminate]. Qed.

Lemma value_parser_single_star_witness :
  ~ In "*"%char ("101209110000W" : str) /\
  ValueParser_parse str_parser (Some ("101209110000W" : str)) tt =
  (x <- coerce_type str_parser "101209110000W" ;;
   ret (ValueGroup (Some x) None)) tt /\
  ("12785.123*m3" : str) = "12785.123" ++ "*"%char :: "m3" /\
  ~ In "*"%char ("12785.123" : str) /\ ~ In "*"%char ("m3" : str) /\
  ValueParser_parse str_parser (Some ("12785.123*m3" : str)) tt =
  (x <- coerce_type str_parser "12785.123" ;;
   ret (ValueGroup (Some x) (Some ("m3" : str)))) tt.
Proof.
  assert (H1 : ~ In "*"%char ("101209110000W" : str))
    by (apply contains_not_In; vm_compute; reflexivity).
  assert (H2 : ~ In "*"%char ("12785.123" : str))
    by (apply contains_not_In; vm_compute; reflexivity).
  assert (H3 : ~ In "*"%char ("m3" : str))
    by (apply contains_not_In; vm_compute; reflexivity).
  split; [exact H1|].
  split; [exact (proj1 (value_parser_single_star unit str str_parser _ tt) H1)|].
  split; [reflexivity|]. split; [exact H2|]. split; [exact H3|].
  exact (proj2 (value_parser_single_star unit str str_parser _ tt)
               "12785.123" "m3" eq_refl H2 H3).
Defined.

(** C4 as stated fails: with no value-format decoder and a line without
    value tokens the counts are equal, and the M-Bus decoder raises
    ParseError instead of returning an object of either shape. *)
Lemma mbus_no_formats_no_object :
  length (tokens "0-0:96.1.1") = length (@nil (ValueParser unit str)) /\
  MBusParser_parse (@nil (ValueParser unit str)) "0-0:96.1.1" tt =
  (Raise ParseError, tt) /\
  forall obj w',
    MBusParser_parse (@nil (ValueParser unit str)) "0-0:96.1.1" tt <>
    (Return obj, w').
Proof.
  split; [vm_compute; reflexivity|].
  split; [vm_compute; reflexivity|].
  intros obj w' H. vm_compute in H. discriminate H.
Qed.

Lemma mbus_shape_by_count_witness :
  length (tokens gas_line) = length [str_parser; str_parser] /\
  length (tokens gas_line) <> 0 /\
  MBusParser_parse [str_parser; str_parser] gas_line tt =
  (values <- decode_each [str_parser; str_parser]
                         (map none_if_empty (tokens gas_line)) ;;
   ret (if length (tokens gas_line) =? 2 then MBusObject values
        else MBusObjectV2_2 values)) tt /\
  length (tokens four_groups_line) = length four_parsers /\
  length (tokens four_groups_line) <> 0 /\
  MBusParser_parse four_parsers four_groups_line tt =
  (values <- decode_each four_parsers
                         (map none_if_empty (tokens four_groups_line)) ;;
   ret (if length (tokens four_groups_line) =? 2 then MBusObject values
        else MBusObjectV2_2 values)) tt.
Proof.
  assert (H1 : length (tokens gas_line) = length [str_parser; str_parser])
    by (vm_compute; reflexivity).
  assert (N1 : length (tokens gas_line) <> 0) by (vm_compute; lia).
  assert (H2 : length (tokens four_groups_line) = length four_parsers)
    by (vm_compute; reflexivity).
  assert (N2 : length (tokens four_groups_line) <> 0) by (vm_compute; lia).
  split; [exact H1|]. split; [exact N1|].
  split; [exact (mbus_shape_by_count unit str _ gas_line tt H1 N1)|].
  split; [exact H2|]. split; [exact N2|].
  exact (mbus_shape_by_count unit str four_parsers four_groups_line tt H2 N2).
Defined.

Example mbus_two_groups :
  MBusParser_parse [str_parser; str_parser] gas_line tt =
  (Return (MBusObject [ValueGroup (Some ("101209110000W" : str)) None;
                       ValueGroup (Some ("12785.123" : str))
                                  (Some ("m3" : str))]), tt).
Proof. vm_compute. reflexivity. Qed.

Example mbus_four_groups :
  MBusParser_parse four_parsers four_groups_line tt =
  (Return (MBusObjectV2_2 four_groups), tt).
Proof. vm_compute. reflexivity. Qed.

Lemma empty_group_absent_witness :
  ("0-1:24.2.1()()" : str) = "0-1:24.2.1()" ++ "()" ++ "" /\
  nth_error (tokens "0-1:24.2.1()()")
            (length (tokens ("0-1:24.2.1()" ++ "("))) = Some [] /\
  _parse [counting_parser; counting_parser] "0-1:24.2.1()()" 0 =
  (Return [ValueGroup None None; ValueGroup None None], 0) /\
  nth_error [@ValueGroup str None None; ValueGroup None None]
            (length (tokens ("0-1:24.2.1()" ++ "("))) =
  Some (ValueGroup None None).
Proof.
  assert (E : ("0-1:24.2.1()()" : str) = "0-1:24.2.1()" ++ "()" ++ "")
    by reflexivity.
  assert (P : _parse [counting_parser; counting_parser] "0-1:24.2.1()()" 0 =
              (Return [ValueGroup None None; ValueGroup None None], 0))
    by (vm_compute; reflexivity).
  destruct (empty_group_absent nat str "0-1:24.2.1()()") as (A & _ & B).
  pose proof (A "0-1:24.2.1()" "" E) as T.
  split; [exact E|]. split; [exact T|]. split; [exact P|].
  exact (proj2 (B _ T) _ _ _ _ P).
Defined.

Lemma validate_without_terminator_witness :
  ~ In "!"%char ("/KFM5KAIFA-METER" : str) /\
  validate_checksum CRC16_calculate "/KFM5KAIFA-METER" = Raise ParseError.
Proof.
  assert (H : ~ In "!"%char ("/KFM5KAIFA-METER" : str))
    by (apply contains_not_In; vm_compute; reflexivity).
  split; [exact H|].
  exact (validate_without_terminator CRC16_calculate _ H).
Defined.

Lemma parse_keys_iff_match_witness :
  parse CRC16_calculate sample_compile sample_parser sample_telegram tt =
  (Return sample_result, tt) /\
  (In GAS_METER_READING (keys sample_result) <->
   In GAS_METER_READING (keys (telegram_specification sample_parser)) /\
   exists r, sample_compile GAS_METER_READING = Some r /\
             matches_substring r sample_telegram) /\
  (In ELECTRICITY_DELIVERED_TARIFF_1 (keys sample_result) <->
   In ELECTRICITY_DELIVERED_TARIFF_1
      (keys (telegram_specification sample_parser)) /\
   exists r, sample_compile ELECTRICITY_DELIVERED_TARIFF_1 = Some r /\
             matches_substring r sample_telegram) /\
  parse CRC16_calculate sample_compile sample_parser sample_telegram tt =
  parse CRC16_calculate sample_compile
        (Build_TelegramParser
           ([(EQUIPMENT_IDENTIFIER, CosemParser [str_parser]);
             (ELECTRICITY_USED_TARIFF_1, CosemParser [str_parser])]
            ++ [(GAS_METER_READING, MBusParser [str_parser; str_parser])])
           (enable_checksum_validation sample_parser))
        sample_telegram tt.
Proof.
  assert (H : parse CRC16_calculate sample_compile sample_parser
                    sample_telegram tt = (Return sample_result, tt))
    by (vm_compute; reflexivity).
  pose proof (parse_keys_iff_match unit str CRC16_calculate sample_compile
                                   sample_parser sample_telegram tt) as [K S].
  split; [exact H|]. split; [exact (K _ _ H GAS_METER_READING)|].
  split; [exact (K _ _ H ELECTRICITY_DELIVERED_TARIFF_1)|].
  apply (S _ ELECTRICITY_DELIVERED_TARIFF_1 (CosemParser [str_parser]) _
           (obis_line (literal "1-0:2.8.1"))).
  - reflexivity.
  - vm_compute. reflexivity.
  - intros M. apply search_matches in M. apply M. vm_compute. reflexivity.
Defined.


(** * The value groups of a line, in terms of its text *)

Section LineText.

Lemma not_open_cons c sn : is_char "(" c = false -> not_open (c :: sn).
Proof. intros H. exact H. Qed.

Lemma token_at_not_open sn td : not_open sn -> token_at sn td = None.
Proof.
  unfold not_open, token_at. destruct sn as [|c sn]; [reflexivity|].
  now intros ->.
Qed.

Lemma span_prefix p :
  forall (t rest : str),
    forallb p t = true ->
    match rest with c :: _ => p c = false | [] => True end ->
    span p (t ++ rest) = (t, rest).
Proof.
  induction t as [|c t IH]; intros rest Ht Hr.
  - destruct rest as [|c rest]; [reflexivity|]. simpl. now rewrite Hr.
  - simpl in Ht. apply andb_prop in Ht. destruct Ht as [Hc Ht].
    cbn [app span]. rewrite Hc, (IH rest Ht Hr). reflexivity.
Qed.

Lemma token_at_group sn (t rest : str) :
  forallb value_char t = true ->
  token_at ("("%char :: sn) (t ++ ")"%char :: rest) = Some t.
Proof.
  intros Ht. unfold token_at.
  change (is_char "(" "(") with true. cbv iota.
  rewrite (span_prefix value_char t (")"%char :: rest) Ht eq_refl).
  reflexivity.
Qed.

(** Text without an opening parenthesis yields no value group. *)
Lemma tokens_from_plain :
  forall (id : str) sn rest,
    ~ In "("%char id -> not_open sn ->
    tokens_from sn (id ++ rest) = tokens_from (rev id ++ sn) rest /\
    not_open (rev id ++ sn).
Proof.
  induction id as [|c id IH]; intros sn rest Hid Hsn; [split; auto|].
  assert (Hc : is_char "(" c = false).
  { destruct (is_char "(" c) eqn:E; [|reflexivity].
    apply is_char_true in E. subst c. exfalso. apply Hid. now left. }
  destruct (IH (c :: sn) rest) as [E N];
    [intros X; apply Hid; now right | exact Hc |].
  cbn [app tokens_from rev]. rewrite (token_at_not_open _ _ Hsn), <- app_assoc.
  split; [exact E | exact N].
Qed.

(** One group in parentheses yields its contents, and the search goes on
    after the closing parenthesis. *)
Lemma tokens_from_group sn (t rest : str) :
  not_open sn -> forallb value_char t = true ->
  tokens_from sn ("("%char :: t ++ ")"%char :: rest) =
  t :: tokens_from (")"%char :: rev t ++ "("%char :: sn) rest.
Proof.
  intros Hsn Ht. cbn [tokens_from]. rewrite (token_at_not_open _ _ Hsn).
  cbn [app]. rewrite (tokens_from_unfold ("("%char :: sn)).
  rewrite (token_at_group sn t rest Ht). cbn [app]. f_equal.
  destruct t as [|c t].
  - reflexivity.
  - cbn [app tokens_after]. simpl in Ht. apply andb_prop in Ht.
    destruct Ht as [Hc Ht].
    rewrite (tokens_skip t c ("("%char :: sn) (")"%char :: rest) Hc Ht).
    cbn [tokens_from rev].
    rewrite token_at_not_open.
    + cbn [app]. now rewrite <- app_assoc.
    + destruct (rev t) as [|x l] eqn:R; cbn [app].
      * apply not_open_cons, value_char_not_open, Hc.
      * apply not_open_cons, value_char_not_open.
        rewrite forallb_forall in Ht. apply Ht, in_rev. rewrite R. now left.
Qed.

Lemma groups_cons (t : str) (ts : list str) :
  groups (t :: ts) = "("%char :: t ++ ")"%char :: groups ts.
Proof.
  unfold groups. cbn [flat_map app]. now rewrite <- app_assoc.
Qed.

Lemma tokens_from_groups :
  forall (ts : list str) sn,
    not_open sn -> Forall (fun t => forallb value_char t = true) ts ->
    tokens_from sn (groups ts) = ts.
Proof.
  induction ts as [|t ts IH]; intros sn Hsn Hts.
  - cbn. now rewrite (token_at_not_open _ _ Hsn).
  - inversion Hts as [|? ? Ht Hts']; subst.
    rewrite groups_cons.
    rewrite (tokens_from_group sn t (groups ts) Hsn Ht). f_equal.
    apply IH; [reflexivity | exact Hts'].
Qed.

(** X1: [re.findall] with the expression of the value groups, on an
    identifier without parentheses followed by groups in parentheses made
    of value characters, returns exactly the contents of the groups, in
    order. *)
Theorem findall_groups_round_trip (id : str) (ts : list str) :
  ~ In "("%char id ->
  Forall (fun t => forallb value_char t = true) ts ->
  findall1 value_pattern (id ++ groups ts) = ts.
Proof.
  intros Hid Hts. rewrite findall_value_tokens. unfold tokens.
  destruct (tokens_from_plain id [] (groups ts) Hid I) as [E N].
  rewrite E. now apply tokens_from_groups.
Qed.

Lemma tokens_from_In_later :
  forall (pre : str) sn rest x,
    In x (tokens_from (rev pre ++ sn) rest) ->
    In x (tokens_from sn (pre ++ rest)).
Proof.
  induction pre as [|c pre IH]; intros sn rest x H; [exact H|].
  cbn [app tokens_from]. apply in_or_app. right.
  apply IH. cbn [rev] in H. now rewrite <- app_assoc in H.
Qed.

Lemma tokens_from_enclosed :
  forall td sn tok,
    In tok (tokens_from sn td) ->
    exists pre post : str,
      rev sn ++ td = pre ++ "("%char :: tok ++ ")"%char :: post /\
      forallb value_char tok = true.
Proof.
  assert (Here : forall sn td tok,
             token_at sn td = Some tok ->
             exists pre post : str,
               rev sn ++ td = pre ++ "("%char :: tok ++ ")"%char :: post /\
               forallb value_char tok = true).
  { intros sn td tok T.
    destruct (token_at_shape _ _ _ T) as (c & sn' & rest & -> & C & Sp).
    apply is_char_true in C. subst c.
    pose proof (span_app value_char td) as A.
    pose proof (span_all value_char td) as B.
    rewrite Sp in A, B. cbn [fst snd] in A, B.
    exists (rev sn'), rest. split; [|exact B].
    cbn [rev]. rewrite <- app_assoc, A. reflexivity. }
  induction td as [|c td IH]; intros sn tok; cbn [tokens_from];
    rewrite in_app_iff.
  - intros [H|[]]. destruct (token_at sn []) as [t|] eqn:T; [|destruct H].
    destruct H as [<-|[]]. exact (Here _ _ _ T).
  - intros [H|H].
    + destruct (token_at sn (c :: td)) as [t|] eqn:T; [|destruct H].
      destruct H as [<-|[]]. exact (Here _ _ _ T).
    + destruct (IH _ _ H) as (pre & post & E & V).
      exists pre, post. split; [|exact V].
      rewrite <- E. cbn [rev]. now rewrite <- app_assoc.
Qed.

(** X2: a string is among the value groups that [re.findall] extracts
    from a line exactly when the line holds it between an opening and a
    closing parenthesis and it is made of value characters only; a group
    with any other character inside is passed over. *)
Theorem findall_enclosed_iff (line tok : str) :
  In tok (findall1 value_pattern line) <-> encloses line tok.
Proof.
  rewrite findall_value_tokens. unfold tokens, encloses. split.
  - intros H. exact (tokens_from_enclosed line [] tok H).
  - intros (pre & post & -> & V).
    replace (pre ++ "("%char :: tok ++ ")"%char :: post)
      with ((pre ++ ["("%char]) ++ tok ++ ")"%char :: post)
      by (rewrite <- app_assoc; reflexivity).
    apply tokens_from_In_later.
    rewrite app_nil_r, rev_app_distr. cbn [rev app].
    rewrite (tokens_from_unfold ("("%char :: rev pre)).
    rewrite (token_at_group (rev pre) tok post V). now left.
Qed.

End LineText.


(** * Line decoding, beyond the count of the groups *)

Section LineDecoding.

Variables W V : Type.
Implicit Types (formats : list (ValueParser W V)) (w : W).

(** X3: a line that holds no parenthesized group made of value characters
    only (an empty line, an identifier alone, a group with a blank or a
    colon inside) makes line decoding raise ParseError, whatever the
    value-format decoders are. *)
Theorem parse_without_groups formats (line : str) w :
  (forall tok, ~ encloses line tok) ->
  _parse formats line w = (Raise ParseError, w).
Proof.
  intros H. unfold _parse. rewrite line_values_tokens.
  destruct (tokens line) as [|t ts] eqn:T; [reflexivity|].
  exfalso. apply (H t). apply (tokens_from_enclosed line [] t).
  fold (tokens line). rewrite T. now left.
Qed.

Lemma parse_each_app :
  forall (vs1 vs2 : list (option str)) formats i w,
    parse_each formats i (vs1 ++ vs2) w =
    match parse_each formats i vs1 w with
    | (Return g1, w1) =>
        match parse_each formats (i + length vs1) vs2 w1 with
        | (Return g2, w2) => (Return (g1 ++ g2), w2)
        | (Raise e, w2) => (Raise e, w2)
        end
    | (Raise e, w1) => (Raise e, w1)
    end.
Proof.
  induction vs1 as [|v vs1 IH]; intros vs2 formats i w.
  - cbn [app parse_each length]. unfold ret. rewrite Nat.add_0_r.
    destruct (parse_each formats i vs2 w) as [[g2|e] w2]; reflexivity.
  - cbn [app parse_each length].
    destruct (nth_error formats i) as [f|]; [|reflexivity]. unfold bind.
    destruct (ValueParser_parse f v w) as [[g|e] w1]; [|reflexivity].
    rewrite IH.
    destruct (parse_each formats (S i) vs1 w1) as [[g1|e] w2]; [|reflexivity].
    unfold ret. cbv beta iota.
    replace (i + S (length vs1)) with (S i + length vs1) by lia.
    destruct (parse_each formats (S i + length vs1) vs2 w2) as [[g2|e] w3];
      reflexivity.
Qed.

(** X4: when the groups before some group of a line decode and the value
    decoder of that group raises an exception, line decoding raises that
    exception and ends in the state that the failing call left: the
    groups after it are not decoded. *)
Theorem parse_first_failure formats (line : str) w
        (vs1 vs2 : list (option str)) (v : option str)
        (f : ValueParser W V) g1 w1 e w2 :
  line_values line = vs1 ++ v :: vs2 ->
  length formats = length (vs1 ++ v :: vs2) ->
  nth_error formats (length vs1) = Some f ->
  parse_each formats 0 vs1 w = (Return g1, w1) ->
  ValueParser_parse f v w1 = (Raise e, w2) ->
  _parse formats line w = (Raise e, w2).
Proof.
  intros L N F P1 Pv. unfold _parse. rewrite L.
  replace (match vs1 ++ v :: vs2 with [] => true | _ :: _ => false end)
    with false by (destruct vs1; reflexivity).
  rewrite N, Nat.eqb_refl. cbn [negb orb].
  rewrite parse_each_app, P1. cbn [parse_each plus]. rewrite F.
  unfold bind. now rewrite Pv.
Qed.

(** X5: an object returned by any of the decoders holds exactly as many
    value groups as the decoder has value formats, and at least one; it
    is never returned by the Profile-Generic decoder; and from the M-Bus
    decoder it is of the two-group class exactly when it holds two
    groups. *)
Theorem decoded_object_size (self : DSMRObjectParser W V) (line : str)
        w obj w' :
  parser_parse self line w = (Return obj, w') ->
  length (object_values obj) = length (value_formats self) /\
  object_values obj <> [] /\
  match self with
  | MBusParser _ =>
      (length (object_values obj) = 2 -> obj = MBusObject (object_values obj))
      /\ (length (object_values obj) <> 2 ->
          obj = MBusObjectV2_2 (object_values obj))
  | CosemParser _ => obj = CosemObject (object_values obj)
  | ProfileGenericParser _ => False
  end.
Proof.
  assert (Sz : forall formats values w1,
             _parse formats line w = (Return values, w1) ->
             length values = length formats /\ values <> []).
  { intros formats values w1 E.
    destruct (_parse_returns _ _ _ _ _ _ _ E) as (L & Nn & Lv & _).
    split; [congruence|]. intros ->. simpl in Lv.
    destruct (tokens line); [contradiction | discriminate]. }
  destruct self as [formats|formats|formats]; cbn [parser_parse value_formats].
  - unfold MBusParser_parse, bind.
    destruct (_parse formats line w) as [[values|e] w1] eqn:E; [|discriminate].
    destruct (Sz _ _ _ E) as [L Nn].
    destruct (length values =? 2) eqn:T; intros [= <- _];
      cbn [object_values]; repeat split; auto.
    + apply Nat.eqb_eq in T. intros X. contradiction.
    + apply Nat.eqb_neq in T. intros X. contradiction.
  - unfold CosemParser_parse, bind.
    destruct (_parse formats line w) as [[values|e] w1] eqn:E; [|discriminate].
    destruct (Sz _ _ _ E) as [L Nn]. intros [= <- _].
    cbn [object_values]. auto.
  - discriminate.
Qed.

(** X6: a line made of an identifier without parentheses and one group
    [(a*b)], where [a] and [b] are made of value characters other than
    [*], is decoded by a COSEM decoder with one value format into one
    value group: the coercion of [a] as the value, and [b] as the unit. *)
Theorem cosem_value_unit_line (self : ValueParser W V) (id a b : str) w :
  ~ In "("%char id ->
  forallb value_char a = true -> forallb value_char b = true ->
  ~ In "*"%char a -> ~ In "*"%char b ->
  CosemParser_parse [self] (id ++ "("%char :: (a ++ "*"%char :: b) ++ [")"%char]) w =
  (x <- coerce_type self a ;;
   ret (CosemObject [ValueGroup (Some x) (Some b)])) w.
Proof.
  intros Hid Ha Hb Sa Sb.
  assert (Ht : forallb value_char (a ++ "*"%char :: b) = true).
  { rewrite forallb_app. cbn [forallb]. rewrite Ha, Hb. reflexivity. }
  assert (T : tokens (id ++ "("%char :: (a ++ "*"%char :: b) ++ [")"%char])
              = [a ++ "*"%char :: b]).
  { unfold tokens.
    destruct (tokens_from_plain id [] (groups [a ++ "*"%char :: b]) Hid I)
      as [E N].
    rewrite groups_cons in E. cbn [groups flat_map] in E. rewrite E.
    change ("("%char :: (a ++ "*"%char :: b) ++ [")"%char])
      with ("("%char :: (a ++ "*"%char :: b) ++ ")"%char :: groups []).
    rewrite <- groups_cons. apply tokens_from_groups; [exact N|].
    constructor; [exact Ht | constructor]. }
  unfold CosemParser_parse, _parse. rewrite line_values_tokens, T.
  cbn [map length Nat.eqb negb orb parse_each nth_error].
  replace (none_if_empty (a ++ "*"%char :: b)) with (Some (a ++ "*"%char :: b))
    by (destruct a; reflexivity).
  unfold bind at 1 2. rewrite (parse_with_unit _ _ self a b w Sa Sb).
  unfold bind, ret. destruct (coerce_type self a w) as [[x|e] w1]; reflexivity.
Qed.

End LineDecoding.


(** * The checksum validation, in terms of the text of the telegram *)

Section ChecksumText.

Lemma scan_none r :
  forall (pre : str) sn rest,
    scan r false sn (pre ++ rest) = None ->
    run r (Cursor (rev pre ++ sn) rest []) = [].
Proof.
  intros pre sn rest H.
  destruct (run r (Cursor (rev pre ++ sn) rest [])) as [|z l] eqn:E;
    [reflexivity|].
  exfalso. apply (scan_complete r pre sn rest); [|exact H].
  rewrite E. discriminate.
Qed.

(** No earlier start than the one of the match found offers a match. *)
Lemma scan_leftmost r :
  forall td sn m,
    scan r false sn td = Some m ->
    exists pre : str,
      td = pre ++ todo (fst m) /\ seen (fst m) = rev pre ++ sn /\
      In (snd m) (run r (fst m)) /\
      forall p1 p2 : str,
        pre = p1 ++ p2 -> p2 <> [] ->
        run r (Cursor (rev p1 ++ sn) (p2 ++ todo (fst m)) []) = [].
Proof.
  induction td as [|c td IH]; intros sn m; rewrite scan_unfold;
    unfold attempts;
    destruct (run r (Cursor sn _ [])) as [|z' l] eqn:E.
  - discriminate.
  - intros [= <-]. exists []. cbn [fst snd seen todo app rev].
    repeat split; [rewrite E; now left|].
    intros p1 p2 P N. symmetry in P. apply app_eq_nil in P.
    destruct P as [_ ->]. contradiction.
  - intros H. destruct (IH _ _ H) as (pre & T & S & R & L).
    exists (c :: pre). cbn [app rev]. rewrite T at 1. rewrite S, <- app_assoc.
    repeat split; [exact R|].
    intros p1 p2 P N. destruct p1 as [|x p1]; cbn [app rev] in *.
    + subst p2. cbn [app]. rewrite <- T. exact E.
    + injection P as <- P. rewrite <- app_assoc. cbn [app].
      exact (L p1 p2 P N).
  - intros [= <-]. exists []. cbn [fst snd seen todo app rev].
    repeat split; [rewrite E; now left|].
    intros p1 p2 P N. symmetry in P. apply app_eq_nil in P.
    destruct P as [_ ->]. contradiction.
Qed.

Lemma hex_at_five b c1 c2 c3 c4 (rest : str) :
  hex_at (b :: c1 :: c2 :: c3 :: c4 :: rest) =
  is_char "!" b && (digit_or_upper c1 && digit_or_upper c2
                    && digit_or_upper c3 && digit_or_upper c4).
Proof.
  unfold hex_at. cbn [forallb].
  destruct (is_char "!" b), (digit_or_upper c1), (digit_or_upper c2),
    (digit_or_upper c3), (digit_or_upper c4); reflexivity.
Qed.

Lemma run_checksum_hex_at sn td :
  run checksum_hex_pattern (Cursor sn td []) = [] <->
  match sn with b :: _ => hex_at (b :: td) | [] => false end = false.
Proof.
  rewrite run_checksum_hex, run_checksum_hex_group.
  destruct sn as [|b sn]; [tauto|].
  destruct td as [|c1 [|c2 [|c3 [|c4 rest]]]]; try (cbn; tauto).
  rewrite hex_at_five.
  destruct (is_char "!" b && _); split; (discriminate || reflexivity).
Qed.

Lemma search_contents_span (telegram : str) :
  search checksum_contents_pattern telegram <> None <-> has_span telegram.
Proof.
  unfold search. split.
  - destruct (scan _ _ _ _) as [m|] eqn:S; [intros _|contradiction].
    destruct (scan_contents_spec _ _ _ S)
      as (pre & body & post & T & _ & _ & B & _).
    exists pre, body, post. split; assumption.
  - intros (pre & body & post & -> & B) N.
    apply scan_none in N. rewrite run_checksum_contents in N.
    change (is_char "/" "/") with true in N. cbv iota in N.
    apply bang_results_nil in N. apply N.
    destruct body as [|c body]; [contradiction|].
    cbn [app tl]. apply in_or_app. right. now left.
Qed.

Lemma search_hex_checksum (telegram : str) :
  search checksum_hex_pattern telegram <> None <-> has_checksum telegram.
Proof.
  unfold search. split.
  - destruct (scan _ _ _ _) as [m|] eqn:S; [intros _|contradiction].
    destruct (checksum_hex_shape _ _ S)
      as (pre & c1 & c2 & c3 & c4 & post & T & _ & D).
    exists pre, ("!"%char :: c1 :: c2 :: c3 :: c4 :: post).
    split; [exact T|]. unfold hex_at. now rewrite D.
  - intros (pre & tail & -> & H) N.
    destruct tail as [|b td]; [discriminate|].
    replace (pre ++ b :: td) with ((pre ++ [b]) ++ td) in N
      by (rewrite <- app_assoc; reflexivity).
    apply scan_none in N. rewrite run_checksum_hex_at in N.
    rewrite app_nil_r, rev_app_distr in N. cbn [rev app] in N.
    rewrite N in H. discriminate.
Qed.

(** X7: the checksum validation raises ParseError exactly when the text
    lacks a [/] followed by at least one character and a later [!], or
    lacks a [!] followed by four characters of [[0-9A-Z]]. *)
Theorem validate_parse_error_iff (crc16 : str -> Z) (telegram : str) :
  validate_checksum crc16 telegram = Raise ParseError <->
  ~ (has_span telegram /\ has_checksum telegram).
Proof.
  unfold validate_checksum.
  pose proof (search_contents_span telegram) as C.
  pose proof (search_hex_checksum telegram) as H.
  destruct (search checksum_contents_pattern telegram) as [m|].
  - destruct (search checksum_hex_pattern telegram) as [h|].
    + split.
      * destruct (int_base16 (group0 h)); [|discriminate].
        destruct (negb _); discriminate.
      * intros N. exfalso. apply N. split; [apply C | apply H]; discriminate.
    + split; [|reflexivity]. intros _ [_ X]. apply H in X. now apply X.
  - split; [|reflexivity]. intros _ [X _]. apply C in X. now apply X.
Qed.

(** X8: the expected checksum is read after the leftmost [!] that is
    followed by four characters of [[0-9A-Z]], and it is those four
    characters; no [!] before it is followed by four such characters. *)
Theorem checksum_hex_first (telegram : str) m :
  search checksum_hex_pattern telegram = Some m ->
  exists pre tail : str,
    telegram = pre ++ tail /\ hex_at tail = true /\
    group0 m = firstn 4 (tl tail) /\
    forall p1 p2 : str,
      pre = p1 ++ p2 -> p2 <> [] -> hex_at (p2 ++ tail) = false.
Proof.
  unfold search. intros S.
  destruct (scan_leftmost _ _ _ _ S) as (pre0 & T & Sn & R & L).
  rewrite app_nil_r in Sn.
  destruct m as [[sn td mk] z']. cbn [fst snd seen todo] in *.
  assert (Mk : mk = []).
  { destruct (scan_sound _ _ _ _ _ S) as (? & _ & _ & Mk & _). exact Mk. }
  subst mk.
  assert (Ne : run checksum_hex_pattern (Cursor sn td []) <> [])
    by (intros X; rewrite X in R; destruct R).
  rewrite run_checksum_hex_at in Ne.
  destruct sn as [|b sn]; [now contradiction Ne|].
  destruct (hex_at (b :: td)) eqn:Hx; [clear Ne | now contradiction Ne].
  destruct pre0 as [|x pre _] using rev_ind; [discriminate|].
  rewrite rev_app_distr in Sn. cbn [rev app] in Sn. injection Sn as -> ->.
  exists pre, (x :: td). split; [rewrite T, <- app_assoc; reflexivity|].
  split; [exact Hx|]. split.
  - rewrite run_checksum_hex, run_checksum_hex_group in R.
    destruct td as [|c1 [|c2 [|c3 [|c4 rest]]]]; try discriminate.
    rewrite hex_at_five in Hx. rewrite Hx in R.
    destruct R as [<-|[]]. unfold group0. cbn [fst snd tl firstn].
    apply extends_slice. reflexivity.
  - intros p1 p2 P N. destruct p2 as [|y p2]; [contradiction|].
    specialize (L (p1 ++ [y]) (p2 ++ [x])).
    rewrite app_nil_r, rev_app_distr in L. cbn [rev app] in L.
    rewrite run_checksum_hex_at in L.
    rewrite <- app_assoc in L. cbn [app] in *.
    replace ((p2 ++ [x]) ++ td) with (p2 ++ x :: td) in L
      by (rewrite <- app_assoc; reflexivity).
    apply L.
    + rewrite P, <- !app_assoc. reflexivity.
    + destruct p2; discriminate.
Qed.

End ChecksumText.


(** * A telegram that carries a checksum *)

Section ChecksumRoundTrip.

Lemma hex_char_digit (d : Z) :
  (0 <= d < 16)%Z ->
  hex_digit (hex_char d) = Some d /\
  digit_or_upper (hex_char d) = true /\
  is_char "x" (hex_char d) = false /\ is_char "X" (hex_char d) = false.
Proof.
  intros H.
  assert (C : (d = 0 \/ d = 1 \/ d = 2 \/ d = 3 \/ d = 4 \/ d = 5 \/ d = 6
               \/ d = 7 \/ d = 8 \/ d = 9 \/ d = 10 \/ d = 11 \/ d = 12
               \/ d = 13 \/ d = 14 \/ d = 15)%Z) by lia.
  repeat (destruct C as [->|C]; [vm_compute; auto|]).
  subst d. vm_compute. auto.
Qed.

Lemma int_base16_plain c1 c2 (rest : str) :
  is_char "x" c2 = false -> is_char "X" c2 = false ->
  int_base16 (c1 :: c2 :: rest) = hex_digits 0 (c1 :: c2 :: rest).
Proof.
  intros Hx HX. unfold int_base16.
  destruct c1 as [[] [] [] [] [] [] [] []]; try reflexivity.
  rewrite Hx, HX. reflexivity.
Qed.

(** Reading back the four digits of a 16-bit value gives the value. *)
Lemma int_base16_hex4 (n : Z) :
  (0 <= n < 65536)%Z -> int_base16 (hex4 n) = Some n.
Proof.
  intros H. unfold hex4.
  assert (R : forall k : Z, (0 <= k mod 16 < 16)%Z)
    by (intros k; apply Z.mod_pos_bound; lia).
  destruct (hex_char_digit _ (R (n / 4096)%Z)) as (D1 & _).
  destruct (hex_char_digit _ (R (n / 256)%Z)) as (D2 & _ & X2 & Y2).
  destruct (hex_char_digit _ (R (n / 16)%Z)) as (D3 & _).
  destruct (hex_char_digit _ (R n)) as (D4 & _).
  rewrite (int_base16_plain _ _ _ X2 Y2). cbn [hex_digits].
  rewrite D1, D2, D3, D4. f_equal.
  Z.to_euclidean_division_equations. lia.
Qed.

Lemma hex4_class (n : Z) : forallb digit_or_upper (hex4 n) = true.
Proof.
  assert (R : forall k : Z, (0 <= k mod 16 < 16)%Z)
    by (intros k; apply Z.mod_pos_bound; lia).
  unfold hex4. cbn [forallb].
  rewrite (proj1 (proj2 (hex_char_digit _ (R (n / 4096)%Z)))),
    (proj1 (proj2 (hex_char_digit _ (R (n / 256)%Z)))),
    (proj1 (proj2 (hex_char_digit _ (R (n / 16)%Z)))),
    (proj1 (proj2 (hex_char_digit _ (R n)))).
  reflexivity.
Qed.

Lemma first_split_unique {A} (c : A) :
  forall p p' s s' : list A,
    p ++ c :: s = p' ++ c :: s' -> ~ In c p -> ~ In c p' ->
    p = p' /\ s = s'.
Proof.
  induction p as [|x p IH]; intros [|y p'] s s' E Hp Hp'; cbn [app] in E.
  - injection E as <-. auto.
  - injection E as <- _. exfalso. apply Hp'. now left.
  - injection E as -> _. exfalso. apply Hp. now left.
  - injection E as <- E.
    destruct (IH p' s s' E) as [<- <-];
      [intros X; apply Hp; now right | intros X; apply Hp'; now right |].
    auto.
Qed.

Lemma last_split_unique {A} (c : A) (p p' s s' : list A) :
  p ++ c :: s = p' ++ c :: s' -> ~ In c s -> ~ In c s' ->
  p = p' /\ s = s'.
Proof.
  intros E Hs Hs'. apply (f_equal (@rev A)) in E.
  rewrite !rev_app_distr in E. cbn [rev] in E. rewrite <- !app_assoc in E.
  cbn [app] in E.
  destruct (first_split_unique c (rev s) (rev s') (rev p) (rev p') E)
    as [Es Ep]; [now rewrite <- in_rev | now rewrite <- in_rev |].
  apply (f_equal (@rev A)) in Es, Ep. rewrite !rev_involutive in Es, Ep.
  auto.
Qed.

(** The covered span of a text with a known first [/] and last [!]. *)
Lemma search_contents_framed (pre body post : str) :
  ~ In "/"%char pre -> ~ In "!"%char post -> body <> [] ->
  option_map group0
    (search checksum_contents_pattern
            (pre ++ "/"%char :: body ++ "!"%char :: post)) =
  Some ("/"%char :: body ++ ["!"%char]).
Proof.
  intros Hpre Hpost Hb.
  destruct (search checksum_contents_pattern _) as [m|] eqn:S.
  - destruct (scan_contents_spec _ _ _ S)
      as (pre' & body' & post' & T & P1 & P2 & _ & G).
    destruct (first_split_unique _ _ _ _ _ T Hpre P1) as [_ T'].
    destruct (last_split_unique _ _ _ _ _ T' Hpost P2) as [<- _].
    cbn [option_map]. now rewrite G.
  - exfalso. revert S. apply search_contents_span.
    exists pre, body, post. auto.
Qed.

(** The expected checksum of a text whose first [!] is followed by four
    characters of [[0-9A-Z]]. *)
Lemma scan_hex_framed c1 c2 c3 c4 (rest : str) :
  forallb digit_or_upper [c1; c2; c3; c4] = true ->
  forall (head : str) sn,
    ~ In "!"%char head ->
    match sn with b :: _ => is_char "!" b = false | [] => True end ->
    option_map group0
      (scan checksum_hex_pattern false sn
            (head ++ "!"%char :: c1 :: c2 :: c3 :: c4 :: rest)) =
    Some [c1; c2; c3; c4].
Proof.
  intros D.
  assert (Skip : forall sn td,
             match sn with b :: _ => is_char "!" b = false | [] => True end ->
             run checksum_hex_pattern (Cursor sn td []) = []).
  { intros sn td H. apply run_checksum_hex_at.
    destruct sn as [|b sn]; [reflexivity|]. cbv beta iota in H.
    unfold hex_at. destruct td as [|? [|? [|? [|? ?]]]]; try reflexivity.
    now rewrite H. }
  induction head as [|x head IH]; intros sn Hh Hsn; cbn [app];
    rewrite scan_unfold; unfold attempts; rewrite (Skip _ _ Hsn).
  - rewrite scan_unfold. unfold attempts.
    rewrite run_checksum_hex, run_checksum_hex_group.
    change (is_char "!" "!") with true. cbn [andb].
    cbn [forallb] in D. rewrite andb_true_r in D.
    replace (digit_or_upper c1 && digit_or_upper c2 && digit_or_upper c3
             && digit_or_upper c4) with true
      by (symmetry; rewrite <- D;
          destruct (digit_or_upper c1), (digit_or_upper c2),
            (digit_or_upper c3), (digit_or_upper c4); reflexivity).
    cbn [option_map]. f_equal. unfold group0. cbn [fst snd].
    apply extends_slice. reflexivity.
  - apply IH; [intros X; apply Hh; now right|].
    destruct (is_char "!" x) eqn:E; [|reflexivity].
    apply is_char_true in E. subst x. exfalso. apply Hh. now left.
Qed.

(** X9: on a text whose first [/] is followed by a body without [!], a
    [!], the four uppercase hexadecimal digits of a 16-bit value [n] and
    a rest without [!], the checksum validation returns when the CRC16 of
    the text from the [/] through the [!] is [n], and otherwise raises
    InvalidChecksumError carrying that CRC16 and [n]. *)
Theorem validate_round_trip (crc16 : str -> Z) (pre body rest : str) (n : Z) :
  ~ In "/"%char pre -> ~ In "!"%char pre ->
  body <> [] -> ~ In "!"%char body -> ~ In "!"%char rest ->
  (0 <= n < 65536)%Z ->
  validate_checksum crc16
    (pre ++ "/"%char :: body ++ "!"%char :: hex4 n ++ rest) =
  if (crc16 ("/"%char :: body ++ ["!"%char]) =? n)%Z then Return tt
  else Raise (InvalidChecksumError (crc16 ("/"%char :: body ++ ["!"%char])) n).
Proof.
  intros P1 P2 Hb B R N.
  assert (Hpost : ~ In "!"%char (hex4 n ++ rest)).
  { intros X. apply in_app_or in X. destruct X as [X|X]; [|exact (R X)].
    pose proof (hex4_class n) as C. rewrite forallb_forall in C.
    specialize (C _ X). apply digit_or_upper_not_bang in C. discriminate. }
  pose proof (search_contents_framed pre body (hex4 n ++ rest) P1 Hpost Hb) as C.
  assert (H : option_map group0
                (search checksum_hex_pattern
                   (pre ++ "/"%char :: body ++ "!"%char :: hex4 n ++ rest))
              = Some (hex4 n)).
  { replace (pre ++ "/"%char :: body ++ "!"%char :: hex4 n ++ rest)
      with ((pre ++ "/"%char :: body) ++ "!"%char :: hex4 n ++ rest)
      by (rewrite <- app_assoc; reflexivity).
    apply (scan_hex_framed _ _ _ _ rest (hex4_class n)); [|exact I].
    intros X. apply in_app_or in X. destruct X as [X|[X|X]]; auto.
    discriminate X. }
  unfold validate_checksum.
  destruct (search checksum_contents_pattern _) as [m|]; [|discriminate C].
  destruct (search checksum_hex_pattern _) as [h|]; [|discriminate H].
  cbn [option_map] in C, H. injection C as ->. injection H as ->.
  rewrite (int_base16_hex4 n N).
  destruct (crc16 _ =? n)%Z; reflexivity.
Qed.

End ChecksumRoundTrip.


(** * The loop over the specification *)

Section SpecificationLoop.

Variables W V : Type.
Variable re_compile : str -> option regex.

Lemma parse_items_app :
  forall (items1 items2 : dict (DSMRObjectParser W V)) data acc w,
    parse_items re_compile (items1 ++ items2) data acc w =
    match parse_items re_compile items1 data acc w with
    | (Return t, w1) => parse_items re_compile items2 data t w1
    | (Raise e, w1) => (Raise e, w1)
    end.
Proof.
  induction items1 as [|[s0 p0] items1 IH]; intros items2 data acc w;
    cbn [app parse_items]; [reflexivity|].
  destruct (re_compile s0) as [r0|]; [|reflexivity].
  destruct (search r0 data) as [m|]; [|apply IH]. unfold bind.
  destruct (parser_parse p0 (group0 m) w) as [[obj|e] w1]; [apply IH|].
  reflexivity.
Qed.

(** X10: when the entries before some entry of the specification are
    processed without failure, the signature of that entry matches, and
    its decoder raises an exception on the matched text, the telegram
    decoder raises that exception: no mapping is returned and the later
    entries are not processed. *)
Theorem parse_aborts_at_failure (crc16 : str -> Z)
        (self : TelegramParser W V) (data : str) w
        items1 sig p items2 r m t1 w1 e w2 :
  telegram_specification self = items1 ++ (sig, p) :: items2 ->
  (enable_checksum_validation self = true ->
   validate_checksum crc16 data = Return tt) ->
  parse_items re_compile items1 data [] w = (Return t1, w1) ->
  re_compile sig = Some r -> search r data = Some m ->
  parser_parse p (group0 m) w1 = (Raise e, w2) ->
  parse crc16 re_compile self data w = (Raise e, w2).
Proof.
  intros E G P1 R S F. unfold parse, bind.
  assert (Gate : (if enable_checksum_validation self
                  then lift (validate_checksum crc16 data) else ret tt) w
                 = (Return tt, w)).
  { destruct (enable_checksum_validation self); [|reflexivity].
    unfold lift. now rewrite G. }
  rewrite Gate, E, parse_items_app, P1. cbn [parse_items].
  rewrite R, S. unfold bind. now rewrite F.
Qed.

Lemma keys_dict_set_new {A} (k : str) (v : A) :
  forall d : dict A, ~ In k (keys d) -> keys (dict_set k v d) = keys d ++ [k].
Proof.
  induction d as [|[k' v'] d IH]; intros H; cbn [dict_set keys map app fst];
    [reflexivity|].
  destruct (str_eq_dec k' k) as [->|N].
  - exfalso. apply H. now left.
  - cbn [map fst]. f_equal. apply IH. intros X. apply H. now right.
Qed.

Lemma parse_items_keys_order :
  forall (items : dict (DSMRObjectParser W V)) data acc w result w',
    NoDup (keys items) ->
    (forall k, In k (keys items) -> ~ In k (keys acc)) ->
    parse_items re_compile items data acc w = (Return result, w') ->
    keys result = keys acc ++ filter (matchesb re_compile data) (keys items).
Proof.
  induction items as [|[s0 p] items IH]; intros data acc w result w' N D;
    cbn [parse_items keys map fst filter].
  - intros [= <- _]. now rewrite app_nil_r.
  - inversion N as [|? ? N1 N2]; subst. unfold matchesb at 1.
    destruct (re_compile s0) as [r|]; [|discriminate].
    destruct (search r data) as [m|].
    + unfold bind.
      destruct (parser_parse p (group0 m) w) as [[obj|e] w1]; [|discriminate].
      intros H. apply IH in H; [|exact N2|].
      * rewrite H, keys_dict_set_new, <- app_assoc; [reflexivity|].
        apply D. now left.
      * intros k K X. rewrite keys_dict_set_new in X by (apply D; now left).
        apply in_app_or in X. destruct X as [X|[<-|[]]].
        -- apply (D k); [now right | exact X].
        -- exact (N1 K).
    + intros H. apply IH in H; [exact H | exact N2 |].
      intros k K. apply D. now right.
Qed.

(** X11: when the signatures of the specification are pairwise distinct,
    the keys of the returned mapping are the signatures that compile and
    match, in the order of the specification, each once. *)
Theorem parse_keys_in_order (crc16 : str -> Z) (self : TelegramParser W V)
        (data : str) w telegram w' :
  NoDup (keys (telegram_specification self)) ->
  parse crc16 re_compile self data w = (Return telegram, w') ->
  keys telegram =
  filter (matchesb re_compile data) (keys (telegram_specification self)) /\
  NoDup (keys telegram).
Proof.
  intros N. unfold parse, bind.
  destruct (_ w) as [[[]|e] w1]; [|discriminate].
  intros H. apply parse_items_keys_order in H; [|exact N | intros k _ []].
  cbn [keys map app] in H. fold (keys telegram) in H.
  split; [exact H|]. rewrite H. apply NoDup_filter, N.
Qed.

Lemma dict_set_In {A} (k : str) (v : A) :
  forall (d : dict A) k' v',
    In (k', v') (dict_set k v d) -> (k', v') = (k, v) \/ In (k', v') d.
Proof.
  induction d as [|[k0 v0] d IH]; intros k' v'; cbn [dict_set].
  - intros [H|[]]. now left.
  - destruct (str_eq_dec k0 k) as [->|N].
    + intros [H|H]; [now left | right; now right].
    + intros [H|H]; [right; now left|].
      destruct (IH _ _ H) as [X|X]; [now left | right; now right].
Qed.

Lemma parse_items_values :
  forall (items : dict (DSMRObjectParser W V)) data acc w result w',
    parse_items re_compile items data acc w = (Return result, w') ->
    forall sig obj,
      In (sig, obj) result ->
      In (sig, obj) acc \/
      exists p r m w1 w2,
        In (sig, p) items /\ re_compile sig = Some r /\
        search r data = Some m /\
        parser_parse p (group0 m) w1 = (Return obj, w2).
Proof.
  induction items as [|[s0 p] items IH]; intros data acc w result w';
    cbn [parse_items].
  - intros [= <- _] sig obj H. now left.
  - destruct (re_compile s0) as [r|] eqn:R; [|discriminate].
    destruct (search r data) as [m|] eqn:S.
    + unfold bind.
      destruct (parser_parse p (group0 m) w) as [[o|e] w1] eqn:P;
        [|discriminate].
      intros H sig obj I.
      destruct (IH _ _ _ _ _ H sig obj I)
        as [X|(p' & r' & m' & wa & wb & X & Y)].
      * apply dict_set_In in X. destruct X as [[= -> ->]|X]; [|now left].
        right. exists p, r, m, w, w1. repeat split; auto. now left.
      * right. exists p', r', m', wa, wb. split; [now right | exact Y].
    + intros H sig obj I.
      destruct (IH _ _ _ _ _ H sig obj I)
        as [X|(p' & r' & m' & wa & wb & X & Y)]; [now left|].
      right. exists p', r', m', wa, wb. split; [now right | exact Y].
Qed.

(** X12: every object of the returned mapping is what the decoder
    configured for its signature returned on the text matched by that
    signature. *)
Theorem parse_values_from_decoders (crc16 : str -> Z)
        (self : TelegramParser W V) (data : str) w telegram w' :
  parse crc16 re_compile self data w = (Return telegram, w') ->
  forall sig obj,
    In (sig, obj) telegram ->
    exists p r m w1 w2,
      In (sig, p) (telegram_specification self) /\
      re_compile sig = Some r /\ search r data = Some m /\
      parser_parse p (group0 m) w1 = (Return obj, w2).
Proof.
  unfold parse, bind. destruct (_ w) as [[[]|e] w1]; [|discriminate].
  intros H sig obj I.
  destruct (parse_items_values _ _ _ _ _ _ H sig obj I) as [[]|X]. exact X.
Qed.

(** X14: when no signature of the specification matches the text (an
    empty text, an empty specification, a telegram of another meter), the
    telegram decoder returns the empty mapping and leaves the state as it
    was: no decoder is invoked. *)
Theorem parse_nothing_matches (crc16 : str -> Z) (self : TelegramParser W V)
        (data : str) w :
  (enable_checksum_validation self = true ->
   validate_checksum crc16 data = Return tt) ->
  (forall sig p,
      In (sig, p) (telegram_specification self) ->
      exists r, re_compile sig = Some r /\ search r data = None) ->
  parse crc16 re_compile self data w = (Return [], w).
Proof.
  intros G H. unfold parse, bind.
  assert (Gate : (if enable_checksum_validation self
                  then lift (validate_checksum crc16 data) else ret tt) w
                 = (Return tt, w)).
  { destruct (enable_checksum_validation self); [|reflexivity].
    unfold lift. now rewrite G. }
  rewrite Gate. clear G Gate. revert H.
  induction (telegram_specification self) as [|[s0 p] items IH]; intros H;
    cbn [parse_items]; [reflexivity|].
  destruct (H s0 p (or_introl eq_refl)) as (r & -> & ->).
  apply IH. intros sig q I. apply (H sig q). now right.
Qed.

End SpecificationLoop.


(** * The further properties on sample data *)

Lemma NoDup_by_nodup (l : list str) : nodup str_eq_dec l = l -> NoDup l.
Proof. intros <-. apply NoDup_nodup. Qed.

Lemma findall_groups_round_trip_witness :
  ~ In "("%char ("0-1:24.2.1" : str) /\
  findall1 value_pattern
    ("0-1:24.2.1" ++ groups ["101209110000W" : str; "12785.123*m3" : str]) =
  ["101209110000W" : str; "12785.123*m3" : str].
Proof.
  assert (H : ~ In "("%char ("0-1:24.2.1" : str))
    by (apply contains_not_In; vm_compute; reflexivity).
  split; [exact H|].
  apply (findall_groups_round_trip "0-1:24.2.1" _ H).
  constructor; [vm_compute; reflexivity|].
  constructor; [vm_compute; reflexivity|]. constructor.
Defined.

Lemma findall_enclosed_iff_witness :
  encloses gas_line "12785.123*m3" /\
  In ("12785.123*m3" : str) (findall1 value_pattern gas_line).
Proof.
  assert (H : encloses gas_line "12785.123*m3").
  { exists ("0-1:24.2.1(101209110000W)" : str), ([] : str).
    split; vm_compute; reflexivity. }
  split; [exact H|].
  exact (proj2 (findall_enclosed_iff gas_line "12785.123*m3") H).
Defined.

Lemma parse_without_groups_witness :
  (forall tok, ~ encloses "0-0:96.1.1" tok) /\
  _parse [str_parser] "0-0:96.1.1" tt = (Raise ParseError, tt).
Proof.
  assert (H : forall tok, ~ encloses "0-0:96.1.1" tok).
  { intros tok (pre & post & E & _).
    assert (X : In "("%char ("0-0:96.1.1" : str))
      by (rewrite E; apply in_or_app; right; now left).
    revert X. apply contains_not_In. vm_compute. reflexivity. }
  split; [exact H|].
  exact (parse_without_groups unit str [str_parser] "0-0:96.1.1" tt H).
Defined.

Lemma parse_first_failure_witness :
  parse_each [counting_parser; counting_parser; counting_parser] 0
             [Some ("12" : str)] 0 =
  (Return [ValueGroup (Some ("12" : str)) None], 1) /\
  ValueParser_parse counting_parser (Some ("1*2*3" : str)) 1 =
  (Raise ValueError, 1) /\
  _parse [counting_parser; counting_parser; counting_parser]
         two_stars_line 0 = (Raise ValueError, 1).
Proof.
  assert (H1 : parse_each [counting_parser; counting_parser; counting_parser]
                          0 [Some ("12" : str)] 0 =
               (Return [ValueGroup (Some ("12" : str)) None], 1))
    by (vm_compute; reflexivity).
  assert (H2 : ValueParser_parse counting_parser (Some ("1*2*3" : str)) 1 =
               (Raise ValueError, 1))
    by (vm_compute; reflexivity).
  split; [exact H1|]. split; [exact H2|].
  apply (parse_first_failure nat str
           [counting_parser; counting_parser; counting_parser]
           two_stars_line 0
           [Some ("12" : str)] [Some ("4" : str)] (Some ("1*2*3" : str))
           counting_parser [ValueGroup (Some ("12" : str)) None] 1
           ValueError 1);
    [vm_compute; reflexivity | reflexivity | reflexivity | exact H1 | exact H2].
Defined.

Lemma decoded_object_size_witness :
  parser_parse (MBusParser [str_parser; str_parser]) gas_line tt =
  (Return (MBusObject [ValueGroup (Some ("101209110000W" : str)) None;
                       ValueGroup (Some ("12785.123" : str))
                                  (Some ("m3" : str))]), tt) /\
  length (object_values
            (MBusObject [ValueGroup (Some ("101209110000W" : str)) None;
                         ValueGroup (Some ("12785.123" : str))
                                    (Some ("m3" : str))])) =
  length (value_formats (MBusParser [str_parser; str_parser])).
Proof.
  assert (H : parser_parse (MBusParser [str_parser; str_parser]) gas_line tt =
              (Return (MBusObject
                         [ValueGroup (Some ("101209110000W" : str)) None;
                          ValueGroup (Some ("12785.123" : str))
                                     (Some ("m3" : str))]), tt))
    by (vm_compute; reflexivity).
  split; [exact H|].
  exact (proj1 (decoded_object_size unit str _ _ _ _ _ H)).
Defined.

Lemma cosem_value_unit_line_witness :
  ~ In "("%char ("1-0:1.8.1" : str) /\
  CosemParser_parse [str_parser]
    ("1-0:1.8.1" ++ "("%char :: ("001234.567" ++ "*"%char :: "kWh")
                 ++ [")"%char]) tt =
  (x <- coerce_type str_parser "001234.567" ;;
   ret (CosemObject [ValueGroup (Some x) (Some ("kWh" : str))])) tt.
Proof.
  assert (H : ~ In "("%char ("1-0:1.8.1" : str))
    by (apply contains_not_In; vm_compute; reflexivity).
  split; [exact H|].
  apply (cosem_value_unit_line unit str str_parser "1-0:1.8.1"
                               "001234.567" "kWh" tt H);
    try (vm_compute; reflexivity);
    apply contains_not_In; vm_compute; reflexivity.
Defined.

Lemma validate_parse_error_iff_witness :
  validate_checksum CRC16_calculate "/KFM5KAIFA-METER!a7b8" =
  Raise ParseError /\
  ~ (has_span "/KFM5KAIFA-METER!a7b8" /\ has_checksum "/KFM5KAIFA-METER!a7b8").
Proof.
  assert (H : validate_checksum CRC16_calculate "/KFM5KAIFA-METER!a7b8" =
              Raise ParseError)
    by (vm_compute; reflexivity).
  split; [exact H|].
  exact (proj1 (validate_parse_error_iff CRC16_calculate _) H).
Defined.

Lemma checksum_hex_first_witness :
  exists m,
    search checksum_hex_pattern "/a!b!4873!0000" = Some m /\
    exists pre tail : str,
      ("/a!b!4873!0000" : str) = pre ++ tail /\ hex_at tail = true /\
      group0 m = firstn 4 (tl tail) /\
      forall p1 p2 : str,
        pre = p1 ++ p2 -> p2 <> [] -> hex_at (p2 ++ tail) = false.
Proof.
  destruct (search checksum_hex_pattern "/a!b!4873!0000") as [m|] eqn:S;
    [|vm_compute in S; discriminate S].
  exists m. split; [reflexivity|].
  exact (checksum_hex_first "/a!b!4873!0000" m S).
Defined.

Lemma validate_round_trip_witness :
  validate_checksum CRC16_calculate
    ([] ++ "/"%char :: framed_body ++ "!"%char :: hex4 52533 ++ crlf) =
  (if (CRC16_calculate ("/"%char :: framed_body ++ ["!"%char]) =? 52533)%Z
   then Return tt
   else Raise (InvalidChecksumError
                 (CRC16_calculate ("/"%char :: framed_body ++ ["!"%char]))
                 52533)) /\
  validate_checksum CRC16_calculate
    ([] ++ "/"%char :: framed_body ++ "!"%char :: hex4 4660 ++ crlf) =
  Raise (InvalidChecksumError 52533 4660).
Proof.
  assert (B : ~ In "!"%char framed_body)
    by (apply contains_not_In; vm_compute; reflexivity).
  assert (R : ~ In "!"%char crlf)
    by (apply contains_not_In; vm_compute; reflexivity).
  assert (N : framed_body <> []) by discriminate.
  assert (R1 : (0 <= 52533 < 65536)%Z) by lia.
  assert (R2 : (0 <= 4660 < 65536)%Z) by lia.
  split.
  - exact (validate_round_trip CRC16_calculate [] framed_body crlf 52533
             (@in_nil _ _) (@in_nil _ _) N B R R1).
  - rewrite (validate_round_trip CRC16_calculate [] framed_body crlf 4660
               (@in_nil _ _) (@in_nil _ _) N B R R2).
    vm_compute. reflexivity.
Defined.

Lemma parse_aborts_at_failure_witness :
  parse CRC16_calculate sample_compile
        (Build_TelegramParser failing_specification true)
        sample_telegram tt =
  (Raise ParseError, tt).
Proof.
  destruct (search (obis_line (Cat (literal "0-")
                                   (Cat (Chr (in_range "0" "9"))
                                        (literal ":24.2.1"))))
                   sample_telegram) as [m|] eqn:S;
    [|vm_compute in S; discriminate S].
  apply (parse_aborts_at_failure unit str sample_compile CRC16_calculate
           (Build_TelegramParser failing_specification true)
           sample_telegram tt
           [(EQUIPMENT_IDENTIFIER, CosemParser [str_parser])]
           GAS_METER_READING (CosemParser [str_parser])
           [(ELECTRICITY_USED_TARIFF_1, CosemParser [str_parser])]
           (obis_line (Cat (literal "0-")
                           (Cat (Chr (in_range "0" "9")) (literal ":24.2.1"))))
           m
           [(EQUIPMENT_IDENTIFIER,
             CosemObject [ValueGroup (Some ("4530303236303030303037" : str))
                                     None])]
           tt ParseError tt).
  - reflexivity.
  - intros _. vm_compute. reflexivity.
  - vm_compute. reflexivity.
  - vm_compute. reflexivity.
  - exact S.
  - vm_compute in S. injection S as <-. vm_compute. reflexivity.
Defined.

Lemma parse_keys_in_order_witness :
  NoDup (keys (telegram_specification sample_parser)) /\
  keys sample_result =
  filter (matchesb sample_compile sample_telegram)
         (keys (telegram_specification sample_parser)) /\
  NoDup (keys sample_result).
Proof.
  assert (N : NoDup (keys (telegram_specification sample_parser)))
    by (apply NoDup_by_nodup; vm_compute; reflexivity).
  assert (H : parse CRC16_calculate sample_compile sample_parser
                    sample_telegram tt = (Return sample_result, tt))
    by (vm_compute; reflexivity).
  split; [exact N|].
  exact (parse_keys_in_order unit str sample_compile CRC16_calculate
                             sample_parser sample_telegram tt _ _ N H).
Defined.

Lemma parse_values_from_decoders_witness :
  exists p r m w1 w2,
    In (ELECTRICITY_USED_TARIFF_1, p) (telegram_specification sample_parser) /\
    sample_compile ELECTRICITY_USED_TARIFF_1 = Some r /\
    search r sample_telegram = Some m /\
    parser_parse p (group0 m) w1 =
    (Return (CosemObject [ValueGroup (Some ("001234.567" : str))
                                     (Some ("kWh" : str))]), w2).
Proof.
  assert (H : parse CRC16_calculate sample_compile sample_parser
                    sample_telegram tt = (Return sample_result, tt))
    by (vm_compute; reflexivity).
  apply (parse_values_from_decoders unit str sample_compile CRC16_calculate
           sample_parser sample_telegram tt _ _ H).
  right. now left.
Defined.

Lemma parse_many_units_witness :
  2 <= count_occ ascii_dec ("1*2*3" : str) "*"%char /\
  ValueParser_parse counting_parser (Some ("1*2*3" : str)) 0 =
  (Raise ValueError, 0).
Proof.
  assert (H : 2 <= count_occ ascii_dec ("1*2*3" : str) "*"%char)
    by (vm_compute; lia).
  split; [exact H|].
  exact (parse_many_units nat str counting_parser _ 0 H).
Defined.

Lemma parse_nothing_matches_witness :
  parse CRC16_calculate sample_compile
        (Build_TelegramParser sample_specification false) "" tt =
  (Return [], tt).
Proof.
  apply (parse_nothing_matches unit str sample_compile CRC16_calculate
           (Build_TelegramParser sample_specification false) "" tt).
  - discriminate.
  - intros sig p [E|[E|[E|[E|[]]]]]; injection E as <- _;
      eexists; (split; [reflexivity | vm_compute; reflexivity]).
Defined.
